(** * Federated informer and unmanaged dispatcher of kubefed: a shallow embedding

    The development follows two source files:
    - [pkg/controller/util/federated_informer.go]: the federated informer,
      its cluster lifecycle handlers and the federated read-only store;
    - the unmanaged dispatcher of package [dispatch]
      ([Delete], [RemoveManagedLabel], [Wait]).

    Go values are modelled as follows.  An [interface{}] held by a cache is
    an [obj]; a [(T, error)] result is a pair whose second component is an
    [option error] ([None] is Go's [nil]); a channel is a number allocated by
    [make], the [nil] channel being [None]; a Go map is a [gmap]; a run-time
    panic is the [Panic] outcome of the [result] monad.  Every method that
    takes the informer's mutex runs atomically, and the order of its
    observable steps (locking, closing channels, map writes, goroutine
    launches, lifecycle callbacks) is appended to a trace. *)

From stdpp Require Import gmap strings list fin_maps.
From Stdlib Require Import Permutation.

Set Default Proof Using "Type".

(** ** Errors and the panic monad *)

Inductive error : Type :=
| Errorf (msg : string)
| APIStatusError (reason : string) (msg : string)
| Wrapf (cause : error) (msg : string).

#[global] Instance error_eq_dec : EqDecision error.
Proof. solve_decision. Defined.

Inductive result (A : Type) : Type :=
| Ok (a : A)
| Panic (msg : string).
Arguments Ok {A} a.
Arguments Panic {A} msg.

#[global] Instance result_bind : MBind result := fun A B k r =>
  match r with
  | Ok a => k a
  | Panic msg => Panic msg
  end.

(** ** Cluster objects *)

Record ClusterCondition : Type := {
  Type_ : string;
  Status : string;
}.

(* fedcommon.ClusterReady and apiv1.ConditionTrue are string constants of
   packages outside the two files. *)
Definition ClusterReady : string := "Ready".
Definition ConditionTrue : string := "True".

Record FederatedClusterSpec : Type := {
  ClusterRef : string;
  SecretRef : option string;
}.

Record FederatedCluster : Type := {
  Name : string;
  Namespace : string;
  Annotations : option (gmap string string);
  Spec : FederatedClusterSpec;
  Conditions : list ClusterCondition;
}.

#[global] Instance ClusterCondition_eq_dec : EqDecision ClusterCondition.
Proof. solve_decision. Defined.
#[global] Instance FederatedClusterSpec_eq_dec : EqDecision FederatedClusterSpec.
Proof. solve_decision. Defined.
#[global] Instance FederatedCluster_eq_dec : EqDecision FederatedCluster.
Proof. solve_decision. Defined.

(** What a cache hands out as [interface{}]: a [*FederatedCluster] or a value
    of some other dynamic type. *)
Inductive obj : Type :=
| ObjCluster (c : FederatedCluster)
| ObjOther (tag : string).

#[global] Instance obj_eq_dec : EqDecision obj.
Proof. solve_decision. Defined.

(** [IsClusterReady]: some condition has type Ready and status True. *)
Fixpoint conditionsReady (conds : list ClusterCondition) : bool :=
  match conds with
  | [] => false
  | condition :: rest =>
      if bool_decide (Type_ condition = ClusterReady) then
        if bool_decide (Status condition = ConditionTrue) then true
        else conditionsReady rest
      else conditionsReady rest
  end.

Definition IsClusterReady (cluster : FederatedCluster) : bool :=
  conditionsReady (Conditions cluster).

(** ** Caches, controllers, clients, channels *)

(** [cache.Store], read side: [List()] and [GetByKey(key)]. *)
Record Store : Type := {
  List : list obj;
  GetByKey : string -> option obj * bool * option error;
}.

Definition Controller : Type := nat.
(** An [*unstructured.Unstructured] points to one of these. *)
Record Unstructured : Type := {
  objNamespace : string;
  objName : string;
  objLabels : option (gmap string string);
  objFields : gmap string string;
}.

#[global] Instance Unstructured_eq_dec : EqDecision Unstructured.
Proof. solve_decision. Defined.

(** [util.ResourceClient], as far as the two files call it:
    [Resources(namespace).Delete(name, opts)] answers with an error or nil;
    [Resources(namespace).Update(obj, opts)] is handed a pointer, so it
    answers with the state in which it leaves that object and an error or
    nil.  Go's nil interface is [None] where a client is passed around. *)
Record ResourceClient : Type := {
  Delete : string -> string -> option error;
  Update : string -> Unstructured -> Unstructured * option error;
}.
Definition chan : Type := option nat.

Record informer : Type := {
  controller : Controller;
  store : Store;
  stopChan : chan;
}.

Record ClusterLifecycleHandlerFuncs : Type := {
  (* [true] when the func field is not nil *)
  ClusterAvailable : bool;
  ClusterUnavailable : bool;
}.

Inductive action : Type :=
| ALock
| AUnlock
| AMake (c : nat)
| AClose (c : nat)
| AGoRun (ctl : Controller) (c : chan)
| AMapSet (name : string)
| AMapDelete (name : string)
| ACallAvailable (cluster : FederatedCluster)
| ACallUnavailable (cluster : FederatedCluster) (data : list obj).

Record federatedInformerImpl : Type := {
  clusterInformer : informer;
  targetInformerFactory : FederatedCluster -> option ResourceClient -> Store * Controller;
  targetInformers : gmap string informer;
  clientFactory : FederatedCluster -> option ResourceClient * option error;
  fedNamespace : string;
  (* run-time state shared with the goroutines *)
  closed : gset nat;
  nextChan : nat;
  trace : list action;
}.

Definition emit (a : action) (f : federatedInformerImpl) : federatedInformerImpl :=
  {| clusterInformer := clusterInformer f;
     targetInformerFactory := targetInformerFactory f;
     targetInformers := targetInformers f;
     clientFactory := clientFactory f;
     fedNamespace := fedNamespace f;
     closed := closed f;
     nextChan := nextChan f;
     trace := trace f ++ [a] |}.

Definition setTargetInformers (m : gmap string informer) (f : federatedInformerImpl)
  : federatedInformerImpl :=
  {| clusterInformer := clusterInformer f;
     targetInformerFactory := targetInformerFactory f;
     targetInformers := m;
     clientFactory := clientFactory f;
     fedNamespace := fedNamespace f;
     closed := closed f;
     nextChan := nextChan f;
     trace := trace f |}.

Definition setClusterInformer (i : informer) (f : federatedInformerImpl)
  : federatedInformerImpl :=
  {| clusterInformer := i;
     targetInformerFactory := targetInformerFactory f;
     targetInformers := targetInformers f;
     clientFactory := clientFactory f;
     fedNamespace := fedNamespace f;
     closed := closed f;
     nextChan := nextChan f;
     trace := trace f |}.

(** [make(chan struct{})]: a channel never seen before. *)
Definition makeChan (f : federatedInformerImpl) : nat * federatedInformerImpl :=
  (nextChan f,
   {| clusterInformer := clusterInformer f;
      targetInformerFactory := targetInformerFactory f;
      targetInformers := targetInformers f;
      clientFactory := clientFactory f;
      fedNamespace := fedNamespace f;
      closed := closed f;
      nextChan := S (nextChan f);
      trace := trace f ++ [AMake (nextChan f)] |}).

(** [close(ch)]: panics on the nil channel and on a closed one. *)
Definition closeChan (ch : chan) (f : federatedInformerImpl) : result federatedInformerImpl :=
  match ch with
  | None => Panic "close of nil channel"
  | Some c =>
      if bool_decide (c ∈ closed f) then Panic "close of closed channel"
      else Ok {| clusterInformer := clusterInformer f;
                 targetInformerFactory := targetInformerFactory f;
                 targetInformers := targetInformers f;
                 clientFactory := clientFactory f;
                 fedNamespace := fedNamespace f;
                 closed := closed f ∪ {[c]};
                 nextChan := nextChan f;
                 trace := trace f ++ [AClose c] |}
  end.

(** ** The federated informer *)

Definition quote (s : string) : string :=
  String (Ascii.ascii_of_nat 34) (s +:+ String (Ascii.ascii_of_nat 34) EmptyString).

(* fmt.Errorf("wrong data in FederatedInformerImpl cluster store: %v", obj) *)
Definition wrongData : error :=
  Errorf "wrong data in FederatedInformerImpl cluster store".

(* fmt.Errorf("cluster %q not found", clusterName) *)
Definition clusterNotFound (clusterName : string) : error :=
  Errorf ("cluster " +:+ quote clusterName +:+ " not found").

Definition getReadyClusterUnlocked (f : federatedInformerImpl) (name : string)
  : option FederatedCluster * bool * option error :=
  let key := fedNamespace f +:+ "/" +:+ name in
  match GetByKey (store (clusterInformer f)) key with
  | (o, true, None) =>
      match o with
      | Some (ObjCluster cluster) =>
          if IsClusterReady cluster then (Some cluster, true, None)
          else (None, false, None)
      | _ => (None, false, Some wrongData)
      end
  | (_, _, err) => (None, false, err)
  end.

Definition GetReadyCluster := getReadyClusterUnlocked.

Definition getClientForClusterUnlocked (f : federatedInformerImpl) (clusterName : string)
  : option ResourceClient * option error :=
  match getReadyClusterUnlocked f clusterName with
  | (Some cluster, true, None) => clientFactory f cluster
  | (_, _, Some err) => (None, Some err)
  | _ => (None, Some (clusterNotFound clusterName))
  end.

Definition GetClientForCluster := getClientForClusterUnlocked.

(** The loops of [GetUnreadyClusters] and [GetReadyClusters] over
    [store.List()]; [want] is the readiness kept. *)
Fixpoint collectClusters (want : bool) (items : list obj) (acc : list FederatedCluster)
  : option (list FederatedCluster) * option error :=
  match items with
  | [] => (Some acc, None)
  | ObjCluster cluster :: rest =>
      if bool_decide (IsClusterReady cluster = want)
      then collectClusters want rest (acc ++ [cluster])
      else collectClusters want rest acc
  | _ :: _ => (None, Some wrongData)
  end.

Definition GetUnreadyClusters (f : federatedInformerImpl)
  : option (list FederatedCluster) * option error :=
  collectClusters false (List (store (clusterInformer f))) [].

Definition GetReadyClusters (f : federatedInformerImpl)
  : option (list FederatedCluster) * option error :=
  collectClusters true (List (store (clusterInformer f))) [].

Definition Start (f : federatedInformerImpl) : federatedInformerImpl :=
  let f := emit ALock f in
  let '(c, f) := makeChan f in
  let f := setClusterInformer
             {| controller := controller (clusterInformer f);
                store := store (clusterInformer f);
                stopChan := Some c |} f in
  let f := emit (AGoRun (controller (clusterInformer f)) (Some c)) f in
  emit AUnlock f.

Definition SetClientFactory
    (factory : FederatedCluster -> option ResourceClient * option error)
    (f : federatedInformerImpl) : federatedInformerImpl :=
  {| clusterInformer := clusterInformer f;
     targetInformerFactory := targetInformerFactory f;
     targetInformers := targetInformers f;
     clientFactory := factory;
     fedNamespace := fedNamespace f;
     closed := closed f;
     nextChan := nextChan f;
     trace := trace f ++ [ALock; AUnlock] |}.

Definition addCluster (cluster : FederatedCluster) (f : federatedInformerImpl)
  : federatedInformerImpl :=
  let f := emit ALock f in
  let name := Name cluster in
  match getClientForClusterUnlocked f name with
  | (client, None) =>
      let '(store, controller) := targetInformerFactory f cluster client in
      let '(c, f) := makeChan f in
      let targetInformer :=
        {| controller := controller; store := store; stopChan := Some c |} in
      let f := setTargetInformers (<[name := targetInformer]> (targetInformers f)) f in
      let f := emit (AMapSet name) f in
      let f := emit (AGoRun controller (Some c)) f in
      emit AUnlock f
  | (_, Some err) => emit AUnlock f
  end.

Definition deleteCluster (cluster : FederatedCluster) (f : federatedInformerImpl)
  : result federatedInformerImpl :=
  let f := emit ALock f in
  let name := Name cluster in
  f ← match targetInformers f !! name with
      | Some targetInformer => closeChan (stopChan targetInformer) f
      | None => Ok f
      end;
  let f := setTargetInformers (delete name (targetInformers f)) f in
  let f := emit (AMapDelete name) f in
  Ok (emit AUnlock f).

(** The body of the [range] loop of [Stop] for one map entry. *)
Definition stopEntry (f : federatedInformerImpl) (entry : string * informer)
  : result federatedInformerImpl :=
  f ← closeChan (stopChan entry.2) f;
  let f := setTargetInformers (delete entry.1 (targetInformers f)) f in
  Ok (emit (AMapDelete entry.1) f).

Fixpoint stopEntries (entries : list (string * informer)) (f : federatedInformerImpl)
  : result federatedInformerImpl :=
  match entries with
  | [] => Ok f
  | entry :: rest => f ← stopEntry f entry; stopEntries rest f
  end.

(** [Stop], the map being ranged over in the order [entries]: Go leaves the
    order open, so [entries] is any arrangement of the map's entries. *)
Definition StopIn (entries : list (string * informer)) (f : federatedInformerImpl)
  : result federatedInformerImpl :=
  let f := emit ALock f in
  f ← closeChan (stopChan (clusterInformer f)) f;
  f ← stopEntries entries f;
  Ok (emit AUnlock f).

Definition Stop (f : federatedInformerImpl) : result federatedInformerImpl :=
  StopIn (map_to_list (targetInformers f)) f.

(** ** The federated read-only store *)

Definition ListFromCluster (f : federatedInformerImpl) (clusterName : string)
  : list obj * option error :=
  let result := [] in
  match targetInformers f !! clusterName with
  | Some targetInformer => (result ++ List (store targetInformer), None)
  | None => (result, None)
  end.

Definition StoreGetByKey (f : federatedInformerImpl) (clusterName key : string)
  : option obj * bool * option error :=
  match targetInformers f !! clusterName with
  | Some targetInformer => GetByKey (store targetInformer) key
  | None => (None, false, None)
  end.

(** The locked part of [ClustersSynced]: the informers to check. *)
Fixpoint informersFor (m : gmap string informer) (clusters : list FederatedCluster)
    (informersToCheck : list informer) : bool * list informer :=
  match clusters with
  | [] => (true, informersToCheck)
  | cluster :: rest =>
      match m !! Name cluster with
      | Some targetInformer => informersFor m rest (informersToCheck ++ [targetInformer])
      | None => (false, [])
      end
  end.

(** The unlocked part: the first informer that has not synced decides. *)
Fixpoint allSynced (HasSynced : Controller -> bool) (informersToCheck : list informer) : bool :=
  match informersToCheck with
  | [] => true
  | informerToCheck :: rest =>
      if negb (HasSynced (controller informerToCheck)) then false
      else allSynced HasSynced rest
  end.

(** [federatedStoreImpl.ClustersSynced]; [HasSynced] is what each controller
    answers when it is asked. *)
Definition ClustersSynced (HasSynced : Controller -> bool) (f : federatedInformerImpl)
    (clusters : list FederatedCluster) : bool :=
  let '(okSoFar, informersToCheck) :=
    if bool_decide (size (targetInformers f) ≠ length clusters) then (false, [])
    else informersFor (targetInformers f) clusters [] in
  if negb okSoFar then false
  else allSynced HasSynced informersToCheck.

(** ** Cluster lifecycle handlers of [NewFederatedInformer] *)

Section handlers.
Variable clusterLifecycle : ClusterLifecycleHandlerFuncs.

Definition getClusterData (f : federatedInformerImpl) (name : string) : list obj :=
  match ListFromCluster f name with
  | (_, Some err) => []
  | (data, None) => data
  end.

Definition DeleteFunc (old : obj) (f : federatedInformerImpl)
  : result federatedInformerImpl :=
  match old with
  | ObjCluster oldCluster =>
      let data :=
        if ClusterUnavailable clusterLifecycle then getClusterData f (Name oldCluster)
        else [] in
      f ← deleteCluster oldCluster f;
      if ClusterUnavailable clusterLifecycle
      then Ok (emit (ACallUnavailable oldCluster data) f)
      else Ok f
  | _ => Ok f
  end.

Definition AddFunc (cur : obj) (f : federatedInformerImpl)
  : result federatedInformerImpl :=
  match cur with
  | ObjCluster curCluster =>
      if IsClusterReady curCluster then
        let f := addCluster curCluster f in
        if ClusterAvailable clusterLifecycle
        then Ok (emit (ACallAvailable curCluster) f)
        else Ok f
      else Ok f
  | _ =>
      (* the log line reads curCluster.Namespace of the nil pointer *)
      Panic "invalid memory address or nil pointer dereference"
  end.

Definition clusterChanged (oldCluster curCluster : FederatedCluster) : bool :=
  negb (bool_decide (IsClusterReady oldCluster = IsClusterReady curCluster))
  || negb (bool_decide (Spec oldCluster = Spec curCluster))
  || negb (bool_decide (Annotations oldCluster = Annotations curCluster)).

Definition UpdateFunc (old cur : obj) (f : federatedInformerImpl)
  : result federatedInformerImpl :=
  match old with
  | ObjCluster oldCluster =>
      match cur with
      | ObjCluster curCluster =>
          if clusterChanged oldCluster curCluster then
            let data :=
              if ClusterUnavailable clusterLifecycle
              then getClusterData f (Name oldCluster)
              else [] in
            f ← deleteCluster oldCluster f;
            let f :=
              if ClusterUnavailable clusterLifecycle
              then emit (ACallUnavailable oldCluster data) f
              else f in
            if IsClusterReady curCluster then
              let f := addCluster curCluster f in
              if ClusterAvailable clusterLifecycle
              then Ok (emit (ACallAvailable curCluster) f)
              else Ok f
            else Ok f
          else Ok f
      | _ => Ok f
      end
  | _ => Ok f
  end.

(** ** Delivery of registry events

    The handlers are run by the cache controller of [cache.NewInformer],
    which keeps the registry cache under the key
    [DeletionHandlingMetaNamespaceKeyFunc] and writes an event's object
    into the cache before it calls the handler. *)



Definition mapStore (m : gmap string obj) : Store :=
  {| List := (map_to_list m).*2;
     GetByKey := fun key =>
       match m !! key with
       | Some o => (Some o, true, None)
       | None => (None, false, None)
       end |}.

Definition withRegistry (m : gmap string obj) (f : federatedInformerImpl)
  : federatedInformerImpl :=
  setClusterInformer
    {| controller := controller (clusterInformer f);
       store := mapStore m;
       stopChan := stopChan (clusterInformer f) |} f.





End handlers.

(** ** The operation dispatcher and the unmanaged dispatcher *)

Module Dispatch.

(** [util.ReconciliationStatus]: the operation outcomes. *)
Inductive ReconciliationStatus : Type :=
| StatusAllOK
| StatusError
| StatusNeedsRecheckMeta
| StatusNeedsRecheckResource
| StatusAlreadyExists.

#[global] Instance ReconciliationStatus_eq_dec : EqDecision ReconciliationStatus.
Proof. solve_decision. Defined.

(** Modelled from the spec: the state of [operationDispatcherImpl], whose
    file is not among the sources: the client accessor (a client or an
    error for a cluster name), the counts of operations initiated and
    completed, the accumulated pass/fail flag and the first-seen error. *)
Record operationDispatcherImpl : Type := {
  clientAccessor : string -> ResourceClient + error;
  operationsInitiated : nat;
  operationsCompleted : nat;
  allOK : bool;
  firstError : option error;
}.

(** Modelled from the spec: [newOperationDispatcher], nothing initiated,
    nothing completed, nothing failed. *)
Definition newOperationDispatcher (accessor : string -> ResourceClient + error)
  : operationDispatcherImpl :=
  {| clientAccessor := accessor;
     operationsInitiated := 0;
     operationsCompleted := 0;
     allOK := true;
     firstError := None |}.

(** Modelled from the spec: [incrementOperationsInitiated]. *)
Definition incrementOperationsInitiated (d : operationDispatcherImpl)
  : operationDispatcherImpl :=
  {| clientAccessor := clientAccessor d;
     operationsInitiated := S (operationsInitiated d);
     operationsCompleted := operationsCompleted d;
     allOK := allOK d;
     firstError := firstError d |}.

(** Modelled from the spec: recording one completion under the
    dispatcher's lock.  Only all-ok counts as success; the first error seen
    is kept; [err] is the error that came with the outcome, if any. *)
Definition recordOutcome (status : ReconciliationStatus) (err : option error)
    (d : operationDispatcherImpl) : operationDispatcherImpl :=
  {| clientAccessor := clientAccessor d;
     operationsInitiated := operationsInitiated d;
     operationsCompleted := S (operationsCompleted d);
     allOK := allOK d && bool_decide (status = StatusAllOK);
     firstError := match firstError d with
                   | Some e => Some e
                   | None => err
                   end |}.

(** Modelled from the spec: [operationDispatcherImpl.Wait].  It stays
    blocked ([None]) until as many operations completed as were initiated,
    then returns [true, nil] if every outcome was all-ok and
    [false, firstError] otherwise. *)
Definition dispatcherWait (d : operationDispatcherImpl) : option (bool * option error) :=
  if bool_decide (operationsCompleted d = operationsInitiated d) then
    if allOK d then Some (true, None) else Some (false, firstError d)
  else None.

Record QualifiedName : Type := {
  qnNamespace : string;
  qnName : string;
}.

(** Modelled from the spec: [QualifiedName.String], the name qualified by
    its namespace when it has one. *)
Definition qnString (n : QualifiedName) : string :=
  if bool_decide (qnNamespace n = "") then qnName n
  else qnNamespace n +:+ "/" +:+ qnName n.

Record unmanagedDispatcherImpl : Type := {
  dispatcher : operationDispatcherImpl;
  targetName : QualifiedName;
  targetKind : string;
  (* the recorder's identity, [None] for the nil interface *)
  recorder : option nat;
}.

(** What the goroutines leave behind besides the dispatcher's counters. *)
Inductive logEntry : Type :=
| LInfo (msg : string)
| LRecordEvent (clusterName op opContinuous : string)
| LHandleError (err : error)
| LRecordOperationError (code clusterName op : string) (err : error).

(** The goroutines launched by [Delete] and [RemoveManagedLabel], with the
    variables their closures capture. *)
Inductive task : Type :=
| TDelete (clusterName : string)
| TRemoveManagedLabel (clusterName : string) (clusterObj : option nat).

(** The dispatcher together with what its goroutines share with it: the
    objects behind the [*Unstructured] pointers, the goroutines launched
    and not yet run, and the log. *)
Record world : Type := {
  self : unmanagedDispatcherImpl;
  heap : gmap nat Unstructured;
  nextLoc : nat;
  pending : list task;
  log : list logEntry;
}.

Definition setDispatcher (o : operationDispatcherImpl) (w : world) : world :=
  {| self := {| dispatcher := o;
                targetName := targetName (self w);
                targetKind := targetKind (self w);
                recorder := recorder (self w) |};
     heap := heap w; nextLoc := nextLoc w; pending := pending w; log := log w |}.

Definition setHeap (h : gmap nat Unstructured) (w : world) : world :=
  {| self := self w; heap := h; nextLoc := nextLoc w;
     pending := pending w; log := log w |}.

Definition logged (e : logEntry) (w : world) : world :=
  {| self := self w; heap := heap w; nextLoc := nextLoc w;
     pending := pending w; log := log w ++ [e] |}.

Definition spawn (t : task) (w : world) : world :=
  {| self := self w; heap := heap w; nextLoc := nextLoc w;
     pending := pending w ++ [t]; log := log w |}.

(* const eventTemplate = "%s %s %q in cluster %q" *)
Definition eventTemplate (verb kind name clusterName : string) : string :=
  verb +:+ " " +:+ kind +:+ " " +:+ quote name +:+ " in cluster " +:+ quote clusterName.

Definition wrapOperationError (err : error)
    (operation targetKind targetName clusterName : string) : error :=
  Wrapf err ("Failed to " +:+ eventTemplate operation targetKind targetName clusterName).

Definition unmanagedWrapOperationError (d : unmanagedDispatcherImpl) (err : error)
    (clusterName operation : string) : error :=
  wrapOperationError err operation (targetKind d) (qnString (targetName d)) clusterName.

(* apierrors.IsNotFound: the error is an API status whose reason is NotFound *)
Definition IsNotFound (err : option error) : bool :=
  match err with
  | Some (APIStatusError reason _) => bool_decide (reason = "NotFound")
  | _ => false
  end.

Section operations.
(** The label key of [util.RemoveManagedLabel] and the error that the
    dispatcher keeps for an outcome returned by an operation closure are
    fixed outside the two files. *)
Variable managedLabelKey : string.
Variable outcomeError : string -> string -> ReconciliationStatus -> option error.

(** Modelled from the spec: [util.RemoveManagedLabel], which strips the
    ownership label from the object it is handed. *)
Definition utilRemoveManagedLabel (o : Unstructured) : Unstructured :=
  {| objNamespace := objNamespace o;
     objName := objName o;
     objLabels := delete managedLabelKey <$> objLabels o;
     objFields := objFields o |}.

(** [clusterObj.DeepCopy()]: a new object with the same content; the nil
    pointer copies to nil. *)
Definition DeepCopy (p : option nat) (w : world) : option nat * world :=
  match p with
  | None => (None, w)
  | Some l =>
      match heap w !! l with
      | Some o =>
          (Some (nextLoc w),
           {| self := self w;
              heap := <[nextLoc w := o]> (heap w);
              nextLoc := S (nextLoc w);
              pending := pending w;
              log := log w |})
      | None => (None, w)
      end
  end.

Definition announce (clusterName op opContinuous : string) (w : world) : world :=
  match recorder (self w) with
  | None =>
      logged (LInfo (eventTemplate opContinuous (targetKind (self w))
                       (qnString (targetName (self w))) clusterName)) w
  | Some _ => logged (LRecordEvent clusterName op opContinuous) w
  end.

Definition reportFailure (code clusterName op : string) (err : error) (w : world)
  : world :=
  match recorder (self w) with
  | None => logged (LHandleError (unmanagedWrapOperationError (self w) err clusterName op)) w
  | Some _ => logged (LRecordOperationError code clusterName op err) w
  end.

(** The closure that [Delete] hands to [clusterOperation]. *)
Definition deleteOperation (clusterName : string) (client : ResourceClient) (w : world)
  : result (ReconciliationStatus * world) :=
  let op := "delete" in
  let opContinuous := "Deleting" in
  let w := announce clusterName op opContinuous w in
  let err := Delete client (qnNamespace (targetName (self w))) (qnName (targetName (self w))) in
  let err := if IsNotFound err then None else err in
  match err with
  | Some e => Ok (StatusError, reportFailure "DeletionFailed" clusterName op e w)
  | None => Ok (StatusAllOK, w)
  end.

(** The closure that [RemoveManagedLabel] hands to [clusterOperation]. *)
Definition removeManagedLabelOperation (clusterName : string) (clusterObj : option nat)
    (client : ResourceClient) (w : world) : result (ReconciliationStatus * world) :=
  let op := "remove managed label from" in
  let opContinuous := "Removing managed label from" in
  let w := announce clusterName op opContinuous w in
  let '(updateObj, w) := DeepCopy clusterObj w in
  match updateObj with
  | None => Panic "invalid memory address or nil pointer dereference"
  | Some l =>
      match heap w !! l with
      | None => Panic "invalid memory address or nil pointer dereference"
      | Some o =>
          let o := utilRemoveManagedLabel o in
          let '(o, err) := Update client (objNamespace o) o in
          let w := setHeap (<[l := o]> (heap w)) w in
          match err with
          | Some e => Ok (StatusError, reportFailure "LabelRemovalFailed" clusterName op e w)
          | None => Ok (StatusAllOK, w)
          end
      end
  end.

(** Modelled from the spec: [clusterOperation], which resolves a client
    for the cluster, failing the operation with a wrapped error if that
    fails, runs the closure on the client and records its outcome. *)
Definition clusterOperation (clusterName op : string)
    (opFunc : ResourceClient -> world -> result (ReconciliationStatus * world))
    (w : world) : result world :=
  match clientAccessor (dispatcher (self w)) clusterName with
  | inr err =>
      let wrapped := unmanagedWrapOperationError (self w) err clusterName op in
      Ok (setDispatcher (recordOutcome StatusError (Some wrapped) (dispatcher (self w))) w)
  | inl client =>
      '(status, w) ← opFunc client w;
      Ok (setDispatcher
            (recordOutcome status (outcomeError clusterName op status) (dispatcher (self w))) w)
  end.

Definition runTask (t : task) (w : world) : result world :=
  match t with
  | TDelete clusterName =>
      clusterOperation clusterName "delete" (deleteOperation clusterName) w
  | TRemoveManagedLabel clusterName clusterObj =>
      clusterOperation clusterName "remove managed label from"
        (removeManagedLabelOperation clusterName clusterObj) w
  end.

Definition unmanagedDelete (clusterName : string) (w : world) : world :=
  let w := setDispatcher (incrementOperationsInitiated (dispatcher (self w))) w in
  spawn (TDelete clusterName) w.

Definition RemoveManagedLabel (clusterName : string) (clusterObj : option nat) (w : world)
  : world :=
  let w := setDispatcher (incrementOperationsInitiated (dispatcher (self w))) w in
  spawn (TRemoveManagedLabel clusterName clusterObj) w.

(** The scheduler runs the [i]-th goroutine that is waiting. *)
Definition runGoroutine (i : nat) (w : world) : result world :=
  match pending w !! i with
  | None => Ok w
  | Some t =>
      runTask t {| self := self w; heap := heap w; nextLoc := nextLoc w;
                   pending := take i (pending w) ++ drop (S i) (pending w);
                   log := log w |}
  end.

(** [unmanagedDispatcherImpl.Wait] *)
Definition Wait (w : world) : option (bool * option error) :=
  dispatcherWait (dispatcher (self w)).

End operations.





End Dispatch.


(** ** Specification vocabulary *)

#[global] Instance action_eq_dec : EqDecision action.
Proof. solve_decision. Defined.

(** A channel that has been made and not closed. *)
Definition openChan (f : federatedInformerImpl) (ch : chan) : Prop :=
  match ch with
  | Some c => (c ∉ closed f) ∧ c < nextChan f
  | None => False
  end.

#[global] Instance openChan_dec f ch : Decision (openChan f ch).
Proof. destruct ch; simpl; apply _. Defined.

(** The channel discipline of the target informers: every entry owns an open
    channel, no two entries share one, and every closed channel was made. *)
Definition wf (f : federatedInformerImpl) : Prop :=
  map_Forall (fun _ inf => openChan f (stopChan inf)) (targetInformers f)
  ∧ map_Forall (fun n1 i1 =>
       map_Forall (fun n2 i2 => stopChan i1 = stopChan i2 -> n1 = n2)
         (targetInformers f)) (targetInformers f)
  ∧ set_Forall (fun c => c < nextChan f) (closed f).

#[global] Instance wf_dec f : Decision (wf f).
Proof. unfold wf. apply _. Defined.

(** After [Start]: the registry watch loop has an open stop channel of its
    own. *)
Definition started (f : federatedInformerImpl) : Prop :=
  openChan f (stopChan (clusterInformer f))
  ∧ map_Forall (fun _ inf => stopChan inf ≠ stopChan (clusterInformer f))
      (targetInformers f).

#[global] Instance started_dec f : Decision (started f).
Proof. unfold started. apply _. Defined.

(** The steps of [Stop] when it ranges over [entries]. *)
Definition entrySteps (entry : string * informer) : list action :=
  match stopChan entry.2 with
  | Some c => [AClose c; AMapDelete entry.1]
  | None => []
  end.

Definition stopSteps (c0 : nat) (entries : list (string * informer)) : list action :=
  [ALock; AClose c0] ++ (entries ≫= entrySteps) ++ [AUnlock].

Definition closes (steps : list action) (c : nat) : nat :=
  length (filter (fun a => a = AClose c) steps).

(** The part of the trace that [f'] added to that of [f]. *)
Definition newSteps (f f' : federatedInformerImpl) : list action :=
  drop (length (trace f)) (trace f').




(** The clusters among cached items, if the items are all clusters. *)
Fixpoint asClusters (items : list obj) : option (list FederatedCluster) :=
  match items with
  | [] => Some []
  | ObjCluster c :: rest => cons c <$> asClusters rest
  | _ :: _ => None
  end.

(** ** Concrete informers and clusters *)

Definition readyConditions : list ClusterCondition :=
  [ {| Type_ := "Offline"; Status := "False" |};
    {| Type_ := "Ready"; Status := "True" |} ].

Definition unreadyConditions : list ClusterCondition :=
  [ {| Type_ := "Ready"; Status := "False" |} ].

Definition mkCluster (name : string) (endpoint : string) (conds : list ClusterCondition)
  : FederatedCluster :=
  {| Name := name; Namespace := "fed"; Annotations := None;
     Spec := {| ClusterRef := endpoint; SecretRef := None |};
     Conditions := conds |}.

Definition okClient : ResourceClient :=
  {| Delete := fun _ _ => None; Update := fun _ o => (o, None) |}.

Definition goodFactory (c : FederatedCluster) : option ResourceClient * option error :=
  (Some okClient, None).

Definition badFactory (c : FederatedCluster) : option ResourceClient * option error :=
  (None, Some (Errorf "Unable to load configuration for cluster")).

Definition emptyStore : Store := mapStore ∅.

(** The struct that [NewFederatedInformer] builds, before [Start]. *)
Definition newInformer
    (factory : FederatedCluster -> option ResourceClient * option error)
  : federatedInformerImpl :=
  {| clusterInformer := {| controller := 0; store := emptyStore; stopChan := None |};
     targetInformerFactory := fun c _ => (emptyStore, 1);
     targetInformers := ∅;
     clientFactory := factory;
     fedNamespace := "fed";
     closed := ∅;
     nextChan := 0;
     trace := [] |}.

Definition c1Ready : FederatedCluster := mkCluster "c1" "10.0.0.1" readyConditions.
Definition c1Moved : FederatedCluster := mkCluster "c1" "10.0.0.9" readyConditions.
Definition c2Ready : FederatedCluster := mkCluster "c2" "10.0.0.2" readyConditions.
Definition c3Unready : FederatedCluster := mkCluster "c3" "10.0.0.3" unreadyConditions.

Definition bothCallbacks : ClusterLifecycleHandlerFuncs :=
  {| ClusterAvailable := true; ClusterUnavailable := true |}.


(** The registry cache holding [c1Ready], [c2Ready] and [c3Unready]. *)
Definition sampleRegistry : gmap string obj :=
  <["fed/c1" := ObjCluster c1Ready]>
    (<["fed/c2" := ObjCluster c2Ready]>
       (<["fed/c3" := ObjCluster c3Unready]> ∅)).

(** A started informer with target informers for [c1] and [c2]. *)
Definition runningInformer : federatedInformerImpl :=
  addCluster c2Ready
    (addCluster c1Ready (withRegistry sampleRegistry (Start (newInformer goodFactory)))).


(** [f] with other target informers, closed channels, channel counter and
    trace: the parts of the state that the lifecycle operations change. *)
Definition withDynamic (m : gmap string informer) (cl : gset nat) (nx : nat)
    (tr : list action) (f : federatedInformerImpl) : federatedInformerImpl :=
  {| clusterInformer := clusterInformer f;
     targetInformerFactory := targetInformerFactory f;
     targetInformers := m;
     clientFactory := clientFactory f;
     fedNamespace := fedNamespace f;
     closed := cl;
     nextChan := nx;
     trace := tr |}.

(** The target informer that [addCluster] builds for [cluster] in [f]. *)
Definition freshInformer (f : federatedInformerImpl) (cluster : FederatedCluster)
    (client : option ResourceClient) : informer :=
  {| controller := (targetInformerFactory f cluster client).2;
     store := (targetInformerFactory f cluster client).1;
     stopChan := Some (nextChan f) |}.


(** The steps of the handlers, as they appear in the trace. *)
Definition teardownSteps (f : federatedInformerImpl) (name : string) : list action :=
  [ALock]
  ++ match targetInformers f !! name with
     | Some inf => match stopChan inf with Some c => [AClose c] | None => [] end
     | None => []
     end
  ++ [AMapDelete name; AUnlock].

Definition addSteps (f : federatedInformerImpl) (cluster : FederatedCluster) : list action :=
  match getClientForClusterUnlocked f (Name cluster) with
  | (client, None) =>
      [ALock; AMake (nextChan f); AMapSet (Name cluster);
       AGoRun (controller (freshInformer f cluster client)) (Some (nextChan f));
       AUnlock]
  | (_, Some _) => [ALock; AUnlock]
  end.

(** What the target store of [name] lists in [f]; nothing without an entry. *)
Definition snapshot (f : federatedInformerImpl) (name : string) : list obj :=
  match targetInformers f !! name with
  | Some inf => List (store inf)
  | None => []
  end.

Definition unavailableCall (clusterLifecycle : ClusterLifecycleHandlerFuncs)
    (cluster : FederatedCluster) (data : list obj) : list action :=
  if ClusterUnavailable clusterLifecycle then [ACallUnavailable cluster data] else [].

Definition availableCall (clusterLifecycle : ClusterLifecycleHandlerFuncs)
    (cluster : FederatedCluster) : list action :=
  if ClusterAvailable clusterLifecycle then [ACallAvailable cluster] else [].

(** A registry cache that holds [c1Moved], with a client factory that
    fails. *)
Definition failingInformer : federatedInformerImpl :=
  withRegistry (<["fed/c1" := ObjCluster c1Moved]> ∅) (Start (newInformer badFactory)).


(** The running informer once the registry cache holds the moved [c1]. *)
Definition movedInformer : federatedInformerImpl :=
  withRegistry (<["fed/c1" := ObjCluster c1Moved]> sampleRegistry) runningInformer.

(** ** Specification vocabulary of the dispatcher *)




(** Every object of the heap was allocated before [nextLoc]. *)
Definition heapFresh (w : Dispatch.world) : Prop :=
  map_Forall (fun l _ => l < Dispatch.nextLoc w) (Dispatch.heap w).

#[global] Instance heapFresh_dec w : Decision (heapFresh w).
Proof. unfold heapFresh. apply _. Defined.

(** ** Concrete clients and dispatchers *)

Definition notFoundClient : ResourceClient :=
  {| Delete := fun _ _ => Some (APIStatusError "NotFound" "configmaps cm not found");
     Update := fun _ o => (o, None) |}.

Definition forbiddenClient : ResourceClient :=
  {| Delete := fun _ _ => Some (APIStatusError "Forbidden" "configmaps cm is forbidden");
     Update := fun _ o => (o, Some (APIStatusError "Conflict" "object was modified")) |}.

Definition sampleAccessor (clusterName : string) : ResourceClient + error :=
  if bool_decide (clusterName = "c1") then inl notFoundClient
  else if bool_decide (clusterName = "c2") then inl forbiddenClient
  else inr (clusterNotFound clusterName).

Definition managedKey : string := "kubefed.io/managed".

Definition sampleObject : Unstructured :=
  {| objNamespace := "ns";
     objName := "cm";
     objLabels := Some (<[managedKey := "true"]> (<["app" := "web"]> ∅));
     objFields := <["data" := "42"]> ∅ |}.

Definition noOutcomeError (clusterName op : string) (status : Dispatch.ReconciliationStatus)
  : option error := None.

Definition sampleWorld : Dispatch.world :=
  {| Dispatch.self :=
       {| Dispatch.dispatcher := Dispatch.newOperationDispatcher sampleAccessor;
          Dispatch.targetName := {| Dispatch.qnNamespace := "ns"; Dispatch.qnName := "cm" |};
          Dispatch.targetKind := "ConfigMap";
          Dispatch.recorder := None |};
     Dispatch.heap := <[0 := sampleObject]> ∅;
     Dispatch.nextLoc := 1;
     Dispatch.pending := [];
     Dispatch.log := [] |}.




(** ** The federated view: [List] and [GetFromAllClusters] *)

(** [FederatedObject]: an object with its origin; [Object] is an
    [interface{}], nil being [None]. *)
Record FederatedObject : Type := {
  Object : option obj;
  ClusterName : string;
}.

#[global] Instance FederatedObject_eq_dec : EqDecision FederatedObject.
Proof. solve_decision. Defined.

(** The inner loop of [federatedStoreImpl.List] over one store's items. *)
Fixpoint appendObjects (clusterName : string) (values : list obj)
    (result : list FederatedObject) : list FederatedObject :=
  match values with
  | [] => result
  | value :: rest =>
      appendObjects clusterName rest
        (result ++ [{| Object := Some value; ClusterName := clusterName |}])
  end.

(** The outer loop, the map being ranged over in the order [entries]. *)
Fixpoint listEntries (entries : list (string * informer))
    (result : list FederatedObject) : list FederatedObject :=
  match entries with
  | [] => result
  | entry :: rest =>
      listEntries rest (appendObjects entry.1 (List (store entry.2)) result)
  end.

Definition StoreListIn (entries : list (string * informer))
  : list FederatedObject * option error :=
  (listEntries entries [], None).

(** [federatedStoreImpl.List] *)
Definition StoreList (f : federatedInformerImpl) : list FederatedObject * option error :=
  StoreListIn (map_to_list (targetInformers f)).

(** The loop of [federatedStoreImpl.GetFromAllClusters]. *)
Fixpoint getFromEntries (key : string) (entries : list (string * informer))
    (result : list FederatedObject) : option (list FederatedObject) * option error :=
  match entries with
  | [] => (Some result, None)
  | entry :: rest =>
      match GetByKey (store entry.2) key with
      | (_, _, Some err) => (None, Some err)
      | (value, true, None) =>
          getFromEntries key rest
            (result ++ [{| Object := value; ClusterName := entry.1 |}])
      | (_, false, None) => getFromEntries key rest result
      end
  end.

Definition StoreGetFromAllClustersIn (entries : list (string * informer)) (key : string)
  : option (list FederatedObject) * option error :=
  getFromEntries key entries [].

(** [federatedStoreImpl.GetFromAllClusters] *)
Definition StoreGetFromAllClusters (f : federatedInformerImpl) (key : string)
  : option (list FederatedObject) * option error :=
  StoreGetFromAllClustersIn (map_to_list (targetInformers f)) key.

(** What one iteration of [GetFromAllClusters] adds for the entry [e]. *)
Definition foundIn (key : string) (e : string * informer) : option FederatedObject :=
  match GetByKey (store e.2) key with
  | (value, true, None) => Some {| Object := value; ClusterName := e.1 |}
  | _ => None
  end.




(** The entries by which a failure is reported: [runtime.HandleError] and
    the recorder's [recordOperationError]. *)
Definition isFailure (e : Dispatch.logEntry) : bool :=
  match e with
  | Dispatch.LHandleError _ | Dispatch.LRecordOperationError _ _ _ _ => true
  | _ => false
  end.

Fixpoint failures (entries : list Dispatch.logEntry) : nat :=
  match entries with
  | [] => 0
  | e :: rest => (if isFailure e then 1 else 0) + failures rest
  end.

(** Stores with content, and an informer whose two target stores hold
    objects under the same key. *)
Definition podStore (tag : string) : Store :=
  mapStore (<["default/web" := ObjOther tag]> ∅).

Definition failingStore : Store :=
  {| List := [];
     GetByKey := fun _ => (None, false, Some (Errorf "index unavailable")) |}.

Definition viewInformer : federatedInformerImpl :=
  {| clusterInformer := {| controller := 0; store := mapStore sampleRegistry;
                           stopChan := Some 0 |};
     targetInformerFactory := fun c _ => (podStore (Name c), 1);
     targetInformers :=
       <["c1" := {| controller := 1; store := podStore "pod-in-c1"; stopChan := Some 1 |}]>
         (<["c2" := {| controller := 2; store := podStore "pod-in-c2";
                       stopChan := Some 2 |}]> ∅);
     clientFactory := goodFactory;
     fedNamespace := "fed";
     closed := ∅;
     nextChan := 3;
     trace := [] |}.

Definition brokenViewInformer : federatedInformerImpl :=
  setTargetInformers
    (<["c3" := {| controller := 3; store := failingStore; stopChan := Some 3 |}]>
       (targetInformers viewInformer))
    viewInformer.


(** ** Readiness and the cluster lists *)

Lemma collectClusters_wrong want items acc :
  asClusters items = None ->
  collectClusters want items acc = (None, Some wrongData).
Proof.
  revert acc. induction items as [|[c|tag] rest IH]; intros acc Hbad; simpl in *.
  - discriminate.
  - destruct (asClusters rest); [discriminate|].
    case_bool_decide; apply IH; reflexivity.
  - reflexivity.
Qed.

Lemma collectClusters_filter want items cs acc :
  asClusters items = Some cs ->
  collectClusters want items acc
  = (Some (acc ++ filter (fun c => IsClusterReady c = want) cs), None).
Proof.
  revert cs acc. induction items as [|[c|tag] rest IH]; intros cs acc Hcs; simpl in *.
  - injection Hcs as <-. rewrite filter_nil, app_nil_r. reflexivity.
  - destruct (asClusters rest) as [cs'|] eqn:Hrest; [|discriminate].
    injection Hcs as <-. rewrite filter_cons.
    case_bool_decide as Hc; destruct (decide (IsClusterReady c = want)); try contradiction.
    + rewrite (IH cs' _ eq_refl), <- app_assoc. reflexivity.
    + apply IH. reflexivity.
  - discriminate.
Qed.

Lemma ready_unready_split (cs : list FederatedCluster) :
  filter (fun c => IsClusterReady c = true) cs
    ++ filter (fun c => IsClusterReady c = false) cs ≡ₚ cs.
Proof.
  induction cs as [|c cs IH]; [reflexivity|].
  rewrite !filter_cons.
  destruct (IsClusterReady c) eqn:Hc.
  - destruct (decide (true = true)); [|congruence].
    destruct (decide (true = false)); [congruence|].
    simpl. by rewrite IH.
  - destruct (decide (false = true)); [congruence|].
    destruct (decide (false = false)); [|congruence].
    rewrite <- Permutation_middle. by rewrite IH.
Qed.

(** C7: [GetReadyClusters] returns exactly the cached clusters whose readiness
    condition is true and [GetUnreadyClusters] exactly those whose readiness
    condition is not true, in cache order, so that the two results split the
    cache between them; if some cached item is not a FederatedCluster, each
    of the two returns the wrong-data error and no list. *)
Theorem GetClusters_classify (f : federatedInformerImpl) :
  match asClusters (List (store (clusterInformer f))) with
  | Some cs =>
      GetReadyClusters f = (Some (filter (fun c => IsClusterReady c = true) cs), None)
      ∧ GetUnreadyClusters f = (Some (filter (fun c => IsClusterReady c = false) cs), None)
      ∧ filter (fun c => IsClusterReady c = true) cs
          ++ filter (fun c => IsClusterReady c = false) cs ≡ₚ cs
      ∧ (forall c, c ∈ cs ->
           (c ∈ filter (fun c => IsClusterReady c = true) cs <-> IsClusterReady c = true)
           ∧ (c ∈ filter (fun c => IsClusterReady c = false) cs <-> IsClusterReady c ≠ true))
  | None =>
      GetReadyClusters f = (None, Some wrongData)
      ∧ GetUnreadyClusters f = (None, Some wrongData)
  end.
Proof.
  unfold GetReadyClusters, GetUnreadyClusters.
  destruct (asClusters _) as [cs|] eqn:Hitems.
  - rewrite !(collectClusters_filter _ _ cs) by done. simpl.
    repeat split; try apply ready_unready_split.
    + intros Hin. by apply list_elem_of_filter in Hin as [? _].
    + intros Hr. by apply list_elem_of_filter.
    + intros Hin. apply list_elem_of_filter in Hin as [Hf _]. congruence.
    + intros Hr. apply list_elem_of_filter. split; [|done].
      by destruct (IsClusterReady c).
  - by rewrite !collectClusters_wrong.
Qed.

Lemma IsClusterReady_spec (cluster : FederatedCluster) :
  IsClusterReady cluster = true
  <-> exists condition, condition ∈ Conditions cluster
        ∧ Type_ condition = ClusterReady ∧ Status condition = ConditionTrue.
Proof.
  unfold IsClusterReady. induction (Conditions cluster) as [|c conds IH]; simpl.
  - split; [discriminate|]. intros (c & Hin & _). by apply elem_of_nil in Hin.
  - repeat case_bool_decide.
    + split; [|done]. intros _. exists c. split; [left|done].
    + rewrite IH. split.
      * intros (c' & Hin & H1 & H2). exists c'. split; [by right|done].
      * intros (c' & Hin & H1 & H2). apply elem_of_cons in Hin as [->|Hin]; [done|].
        by exists c'.
    + rewrite IH. split.
      * intros (c' & Hin & H1 & H2). exists c'. split; [by right|done].
      * intros (c' & Hin & H1 & H2). apply elem_of_cons in Hin as [->|Hin]; [done|].
        by exists c'.
Qed.

(** ** The federated store's [ClustersSynced] *)

Lemma informersFor_found m clusters acc :
  Forall (fun c => is_Some (m !! Name c)) clusters ->
  informersFor m clusters acc = (true, acc ++ omap (fun c => m !! Name c) clusters).
Proof.
  revert acc. induction clusters as [|c cs IH]; intros acc Hall; simpl.
  - by rewrite app_nil_r.
  - apply Forall_cons in Hall as [[inf Hinf] Hall].
    rewrite Hinf. rewrite IH by done. by rewrite <- app_assoc.
Qed.

Lemma informersFor_missing m clusters acc :
  ¬ Forall (fun c => is_Some (m !! Name c)) clusters ->
  informersFor m clusters acc = (false, []).
Proof.
  revert acc. induction clusters as [|c cs IH]; intros acc Hnot; simpl.
  - destruct Hnot. constructor.
  - destruct (m !! Name c) as [inf|] eqn:Hinf; [|done].
    apply IH. intros Hall. apply Hnot. constructor; [by eexists|done].
Qed.

Lemma allSynced_Forall HasSynced l :
  allSynced HasSynced l = true
  <-> Forall (fun inf => HasSynced (controller inf) = true) l.
Proof.
  induction l as [|inf l IH]; simpl.
  - split; [constructor|done].
  - destruct (HasSynced (controller inf)) eqn:Hs; simpl.
    + rewrite IH. split; [by constructor|]. by intros [_ ?]%Forall_cons.
    + split; [done|]. intros [? _]%Forall_cons. congruence.
Qed.

(** C4: [ClustersSynced(clusters)] of the federated store returns true if and
    only if (a) the number of target informers equals the length of the list,
    (b) every cluster named in the list has a target informer and (c) the
    controller of every such informer reports synced. *)
Theorem ClustersSynced_iff (HasSynced : Controller -> bool) (f : federatedInformerImpl)
    (clusters : list FederatedCluster) :
  ClustersSynced HasSynced f clusters = true
  <-> size (targetInformers f) = length clusters
      ∧ (forall c, c ∈ clusters -> is_Some (targetInformers f !! Name c))
      ∧ (forall c inf, c ∈ clusters -> targetInformers f !! Name c = Some inf ->
           HasSynced (controller inf) = true).
Proof.
  unfold ClustersSynced. case_bool_decide as Hsize.
  { simpl. split; [done|]. intros [? _]. done. }
  destruct (decide (Forall (fun c => is_Some (targetInformers f !! Name c)) clusters))
    as [Hall|Hnot].
  - rewrite informersFor_found by done. simpl. rewrite allSynced_Forall.
    split.
    + intros Hsync. split; [done|]. split; [by apply Forall_forall|].
      intros c inf Hin Hinf.
      rewrite Forall_forall in Hsync. apply Hsync.
      apply list_elem_of_omap. by exists c.
    + intros (_ & _ & Hsync). apply Forall_forall. intros inf Hin.
      apply list_elem_of_omap in Hin as (c & Hin & Hinf). by apply (Hsync c).
  - rewrite informersFor_missing by done. simpl. split; [done|].
    intros (_ & Hall & _). destruct Hnot. by apply Forall_forall.
Qed.

(** ** Clients for ready clusters *)

Lemma getReadyClusterUnlocked_found f name cluster :
  getReadyClusterUnlocked f name = (Some cluster, true, None)
  <-> GetByKey (store (clusterInformer f)) (fedNamespace f +:+ "/" +:+ name)
        = (Some (ObjCluster cluster), true, None)
      ∧ IsClusterReady cluster = true.
Proof.
  unfold getReadyClusterUnlocked.
  destruct (GetByKey _ _) as [[o exist] err].
  destruct exist, err as [e|], o as [[c|tag]|]; simpl;
    try destruct (IsClusterReady c) eqn:Hc;
    (split; [intros ?; simplify_eq; done | intros [? ?]; simplify_eq; congruence]).
Qed.

Lemma getClientForClusterUnlocked_ready f name cluster :
  getReadyClusterUnlocked f name = (Some cluster, true, None) ->
  getClientForClusterUnlocked f name = clientFactory f cluster.
Proof. unfold getClientForClusterUnlocked. by intros ->. Qed.

(** C6: [GetClientForCluster(name)] fails with the not-found error when the
    cluster is absent from the registry cache or present but not ready; when
    the cluster is present and ready it returns what the client factory
    returns for it, error included; and it returns without error only when
    the cluster is present and ready and the factory succeeded. *)
Theorem GetClientForCluster_cases (f : federatedInformerImpl) (name : string) :
  let lookup := GetByKey (store (clusterInformer f)) (fedNamespace f +:+ "/" +:+ name) in
  (forall o, lookup = (o, false, None) ->
     GetClientForCluster f name = (None, Some (clusterNotFound name)))
  ∧ (forall cluster, lookup = (Some (ObjCluster cluster), true, None) ->
       IsClusterReady cluster = false ->
       GetClientForCluster f name = (None, Some (clusterNotFound name)))
  ∧ (forall cluster, lookup = (Some (ObjCluster cluster), true, None) ->
       IsClusterReady cluster = true ->
       GetClientForCluster f name = clientFactory f cluster)
  ∧ (forall client, GetClientForCluster f name = (client, None) ->
       exists cluster,
         lookup = (Some (ObjCluster cluster), true, None)
         ∧ IsClusterReady cluster = true
         ∧ clientFactory f cluster = (client, None)).
Proof.
  unfold GetClientForCluster. repeat split.
  - intros o Hl. unfold getClientForClusterUnlocked, getReadyClusterUnlocked.
    by rewrite Hl.
  - intros cluster Hl Hr. unfold getClientForClusterUnlocked, getReadyClusterUnlocked.
    by rewrite Hl, Hr.
  - intros cluster Hl Hr. apply getClientForClusterUnlocked_ready.
    by apply getReadyClusterUnlocked_found.
  - intros client Hres. unfold getClientForClusterUnlocked in Hres.
    destruct (getReadyClusterUnlocked f name) as [[oc found] err] eqn:Hready.
    destruct oc as [cluster|], found, err as [e|]; simplify_eq.
    exists cluster. apply getReadyClusterUnlocked_found in Hready as [? ?]. done.
Qed.

Example GetClientForCluster_ready_example :
  GetClientForCluster (withRegistry sampleRegistry (newInformer goodFactory)) "c1"
  = (Some okClient, None).
Proof. reflexivity. Qed.

Example GetClientForCluster_unready_example :
  GetClientForCluster (withRegistry sampleRegistry (newInformer goodFactory)) "c3"
  = (None, Some (clusterNotFound "c3")).
Proof. reflexivity. Qed.

Example GetClientForCluster_absent_example :
  GetClientForCluster (withRegistry sampleRegistry (newInformer goodFactory)) "c4"
  = (None, Some (clusterNotFound "c4")).
Proof. reflexivity. Qed.

Example GetClientForCluster_factory_error_example :
  GetClientForCluster (withRegistry sampleRegistry (newInformer badFactory)) "c1"
  = badFactory c1Ready.
Proof. reflexivity. Qed.

(** ** Channel discipline of [addCluster] and [deleteCluster] *)

Lemma addCluster_success cluster f client :
  getClientForClusterUnlocked f (Name cluster) = (client, None) ->
  addCluster cluster f
  = withDynamic (<[Name cluster := freshInformer f cluster client]> (targetInformers f))
      (closed f) (S (nextChan f))
      (trace f ++ [ALock; AMake (nextChan f); AMapSet (Name cluster);
                   AGoRun (controller (freshInformer f cluster client)) (Some (nextChan f));
                   AUnlock]) f.
Proof.
  intros Hclient. unfold addCluster.
  change (getClientForClusterUnlocked (emit ALock f) (Name cluster))
    with (getClientForClusterUnlocked f (Name cluster)).
  rewrite Hclient. unfold freshInformer, withDynamic. simpl.
  destruct (targetInformerFactory f cluster client) as [s ctl]. simpl.
  unfold emit, setTargetInformers. simpl. f_equal.
  by rewrite <- !app_assoc.
Qed.

Lemma addCluster_failure cluster f client err :
  getClientForClusterUnlocked f (Name cluster) = (client, Some err) ->
  addCluster cluster f
  = withDynamic (targetInformers f) (closed f) (nextChan f)
      (trace f ++ [ALock; AUnlock]) f.
Proof.
  intros Hclient. unfold addCluster.
  change (getClientForClusterUnlocked (emit ALock f) (Name cluster))
    with (getClientForClusterUnlocked f (Name cluster)).
  rewrite Hclient. unfold emit, withDynamic. simpl. f_equal.
  by rewrite <- !app_assoc.
Qed.

Lemma deleteCluster_found cluster f inf c :
  targetInformers f !! Name cluster = Some inf ->
  stopChan inf = Some c ->
  c ∉ closed f ->
  deleteCluster cluster f
  = Ok (withDynamic (delete (Name cluster) (targetInformers f))
          (closed f ∪ {[c]}) (nextChan f)
          (trace f ++ [ALock; AClose c; AMapDelete (Name cluster); AUnlock]) f).
Proof.
  intros Hinf Hc Hopen. unfold deleteCluster. simpl. rewrite Hinf, Hc.
  unfold closeChan. simpl. rewrite bool_decide_eq_false_2 by done.
  simpl. unfold emit, setTargetInformers, withDynamic. simpl. do 2 f_equal.
  by rewrite <- !app_assoc.
Qed.

Lemma deleteCluster_missing cluster f :
  targetInformers f !! Name cluster = None ->
  deleteCluster cluster f
  = Ok (withDynamic (targetInformers f) (closed f) (nextChan f)
          (trace f ++ [ALock; AMapDelete (Name cluster); AUnlock]) f).
Proof.
  intros Hinf. unfold deleteCluster. simpl. rewrite Hinf. simpl.
  unfold emit, setTargetInformers, withDynamic. simpl. do 2 f_equal.
  - by apply delete_id.
  - by rewrite <- !app_assoc.
Qed.

Lemma wf_trace f m cl nx tr tr' :
  wf (withDynamic m cl nx tr f) -> wf (withDynamic m cl nx tr' f).
Proof. done. Qed.

Lemma wf_emit a f : wf f -> wf (emit a f).
Proof. done. Qed.


Lemma wf_addCluster cluster f : wf f -> wf (addCluster cluster f).
Proof.
  intros (Hopen & Hdistinct & Hclosed).
  destruct (getClientForClusterUnlocked f (Name cluster)) as [client [err|]] eqn:Hclient.
  { rewrite (addCluster_failure _ _ _ _ Hclient). done. }
  rewrite (addCluster_success _ _ _ Hclient).
  assert (Hfresh : nextChan f ∉ closed f).
  { intros Hin. apply Hclosed in Hin. lia. }
  split; [|split].
  - intros n inf. simpl. rewrite lookup_insert. case_decide.
    + intros [= <-]. simpl. split; [done|lia].
    + intros Hn. specialize (Hopen n inf Hn). simpl in *.
      destruct (stopChan inf) as [c|]; [|done]. destruct Hopen. simpl. split; [done|lia].
  - intros n1 i1 Hn1 n2 i2 Hn2 Heq. simpl in *.
    destruct (decide (n1 = n2)) as [|Hne]; [done|]. exfalso.
    rewrite lookup_insert in Hn1. rewrite lookup_insert in Hn2.
    destruct (decide (Name cluster = n1)) as [E1|E1];
      destruct (decide (Name cluster = n2)) as [E2|E2].
    + congruence.
    + injection Hn1 as <-. simpl in Heq.
      pose proof (Hopen n2 i2 Hn2) as Ho. simpl in Ho. rewrite <- Heq in Ho.
      destruct Ho; lia.
    + injection Hn2 as <-. simpl in Heq.
      pose proof (Hopen n1 i1 Hn1) as Ho. simpl in Ho. rewrite Heq in Ho.
      destruct Ho; lia.
    + by apply Hne, (Hdistinct n1 i1 Hn1 n2 i2 Hn2).
  - intros c Hc. simpl in *. apply Hclosed in Hc. lia.
Qed.

Lemma wf_deleteCluster cluster f :
  wf f -> exists f', deleteCluster cluster f = Ok f' ∧ wf f'
    ∧ targetInformers f' = delete (Name cluster) (targetInformers f)
    ∧ clientFactory f' = clientFactory f
    ∧ fedNamespace f' = fedNamespace f
    ∧ clusterInformer f' = clusterInformer f
    ∧ targetInformerFactory f' = targetInformerFactory f.
Proof.
  intros (Hopen & Hdistinct & Hclosed).
  destruct (targetInformers f !! Name cluster) as [inf|] eqn:Hinf.
  - pose proof (Hopen _ _ Hinf) as Hc. simpl in Hc.
    destruct (stopChan inf) as [c|] eqn:Hchan; [|done]. destruct Hc as [Hc Hlt].
    eexists. split; [by apply (deleteCluster_found _ _ inf c)|].
    split; [|done]. split; [|split].
    + intros n i. simpl. rewrite lookup_delete. case_decide; [done|].
      intros Hn. pose proof (Hopen n i Hn) as Ho. simpl in Ho.
      destruct (stopChan i) as [c'|] eqn:Hc'; [|done]. destruct Ho as [Ho Hlt'].
      split; [|done]. intros [?| ->%elem_of_singleton]%elem_of_union; [done|].
      assert (n = Name cluster); [|done].
      apply (Hdistinct n i Hn (Name cluster) inf Hinf). congruence.
    + intros n1 i1 Hn1 n2 i2 Hn2. simpl in *.
      apply lookup_delete_Some in Hn1 as [_ Hn1].
      apply lookup_delete_Some in Hn2 as [_ Hn2].
      by apply (Hdistinct n1 i1 Hn1 n2 i2 Hn2).
    + intros c' [?| ->%elem_of_singleton]%elem_of_union; simpl; [by apply Hclosed|done].
  - eexists. split; [by apply deleteCluster_missing|].
    split; [done|]. simpl. repeat split. by rewrite delete_id.
Qed.

Lemma newSteps_app f f' steps :
  trace f' = trace f ++ steps -> newSteps f f' = steps.
Proof. unfold newSteps. intros ->. by rewrite drop_app_length. Qed.

Lemma wf_open f name inf :
  wf f -> targetInformers f !! name = Some inf -> openChan f (stopChan inf).
Proof. intros (Hopen & _ & _) Hinf. by apply (Hopen name inf). Qed.

Lemma wf_distinct f n1 i1 n2 i2 :
  wf f -> targetInformers f !! n1 = Some i1 -> targetInformers f !! n2 = Some i2 ->
  stopChan i1 = stopChan i2 -> n1 = n2.
Proof. intros (_ & Hdistinct & _) H1 H2. by apply (Hdistinct n1 i1 H1 n2 i2 H2). Qed.

(** C10: when the target-informer map already has an entry for the name of a
    ready cluster and a client can be built for it, [addCluster] overwrites
    the entry with a fresh informer, closes no channel, and leaves the
    replaced entry's stop channel open while no entry of the map refers to it
    any more. *)
Theorem addCluster_overwrites_uncancelled (f : federatedInformerImpl)
    (cluster : FederatedCluster) (old : informer) (client : option ResourceClient) :
  targetInformers f !! Name cluster = Some old ->
  GetByKey (store (clusterInformer f)) (fedNamespace f +:+ "/" +:+ Name cluster)
    = (Some (ObjCluster cluster), true, None) ->
  IsClusterReady cluster = true ->
  clientFactory f cluster = (client, None) ->
  targetInformers (addCluster cluster f)
    = <[Name cluster := freshInformer f cluster client]> (targetInformers f)
  ∧ closed (addCluster cluster f) = closed f
  ∧ (forall c, closes (newSteps f (addCluster cluster f)) c = 0)
  ∧ (wf f ->
     stopChan (freshInformer f cluster client) ≠ stopChan old
     ∧ openChan (addCluster cluster f) (stopChan old)
     ∧ map_Forall (fun _ inf => stopChan inf ≠ stopChan old)
         (targetInformers (addCluster cluster f))).
Proof.
  intros Hold Hlookup Hready Hfactory.
  assert (Hclient : getClientForClusterUnlocked f (Name cluster) = (client, None)).
  { rewrite (getClientForClusterUnlocked_ready f _ cluster); [done|].
    by apply getReadyClusterUnlocked_found. }
  rewrite (addCluster_success _ _ _ Hclient). simpl.
  split; [done|]. split; [done|]. split.
  - intros c. erewrite newSteps_app; [|reflexivity]. reflexivity.
  - intros Hwf. pose proof (wf_open _ _ _ Hwf Hold) as Hopen.
    destruct (stopChan old) as [c|] eqn:Hc; [|done]. destruct Hopen as [Hnc Hlt].
    split; [intros [= ?]; lia|]. split; [simpl; split; [done|lia]|].
    intros n inf. rewrite lookup_insert. case_decide as Hn.
    + intros [= <-]. simpl. intros [= ?]. lia.
    + intros Hinf Heq. apply Hn. symmetry.
      apply (wf_distinct f n inf (Name cluster) old Hwf Hinf Hold). congruence.
Qed.

Lemma addCluster_overwrites_uncancelled_witness :
  exists old,
    targetInformers runningInformer !! "c1" = Some old
    ∧ closed (addCluster c1Ready runningInformer) = closed runningInformer
    ∧ openChan (addCluster c1Ready runningInformer) (stopChan old).
Proof.
  eexists. split; [reflexivity|].
  destruct (addCluster_overwrites_uncancelled runningInformer c1Ready
              (freshInformer
                 (withRegistry sampleRegistry (Start (newInformer goodFactory)))
                 c1Ready (Some okClient))
              (Some okClient))
    as (_ & Hclosed & _ & Hwf).
  - reflexivity.
  - reflexivity.
  - reflexivity.
  - reflexivity.
  - split; [exact Hclosed|].
    apply Hwf. apply (bool_decide_unpack (wf runningInformer)). vm_compute. exact I.
Defined.

(** ** [Stop] *)

(** [Start] establishes, and the lifecycle operations keep, what [Stop]
    relies on. *)
Lemma Start_started f : wf f -> wf (Start f) ∧ started (Start f).
Proof.
  intros (Hopen & Hdistinct & Hclosed).
  assert (Hfresh : nextChan f ∉ closed f).
  { intros Hin. apply Hclosed in Hin. lia. }
  split; [split; [|split]|split].
  - intros n inf Hn. specialize (Hopen n inf Hn). simpl in *.
    destruct (stopChan inf) as [c|]; [|done]. destruct Hopen. simpl.
    split; [done|lia].
  - done.
  - intros c Hc. simpl in *. apply Hclosed in Hc. lia.
  - simpl. split; [done|lia].
  - intros n inf Hn Heq. specialize (Hopen n inf Hn). simpl in *.
    rewrite Heq in Hopen. destruct Hopen. lia.
Qed.

Lemma started_addCluster cluster f :
  wf f -> started f -> started (addCluster cluster f).
Proof.
  intros (_ & _ & Hclosed) [Hc0 Hown].
  destruct (getClientForClusterUnlocked f (Name cluster)) as [client [err|]] eqn:Hclient.
  { rewrite (addCluster_failure _ _ _ _ Hclient). done. }
  rewrite (addCluster_success _ _ _ Hclient).
  destruct (stopChan (clusterInformer f)) as [c0|] eqn:Hchan; [|done].
  destruct Hc0 as [Hnc Hlt]. split.
  - simpl. rewrite Hchan. simpl. split; [done|lia].
  - intros n inf. simpl. rewrite lookup_insert. case_decide.
    + intros [= <-]. simpl. rewrite Hchan. intros [= ?]. lia.
    + intros Hn. simpl. rewrite Hchan. by apply (Hown n inf).
Qed.

Lemma started_deleteCluster cluster f f' :
  wf f -> started f -> deleteCluster cluster f = Ok f' -> started f'.
Proof.
  intros Hwf [Hc0 Hown] Hdel.
  destruct (stopChan (clusterInformer f)) as [c0|] eqn:Hchan; [|done].
  destruct Hc0 as [Hnc Hlt].
  destruct (targetInformers f !! Name cluster) as [inf|] eqn:Hinf.
  - pose proof (wf_open _ _ _ Hwf Hinf) as Ho.
    destruct (stopChan inf) as [c|] eqn:Hc; [|done]. destruct Ho as [Hc1 Hc2].
    rewrite (deleteCluster_found _ _ inf c Hinf Hc Hc1) in Hdel.
    injection Hdel as <-. split.
    + simpl. rewrite Hchan. simpl. split; [|done].
      intros [?|Heq%elem_of_singleton]%elem_of_union; [done|].
      apply (Hown _ _ Hinf). congruence.
    + intros n i. simpl. intros [_ Hn]%lookup_delete_Some.
      rewrite Hchan. by apply (Hown n i).
  - rewrite (deleteCluster_missing _ _ Hinf) in Hdel. injection Hdel as <-.
    split; simpl; rewrite Hchan; [done|].
    intros n i Hn. simpl. rewrite ?Hchan. by apply (Hown n i).
Qed.


Lemma closes_app l1 l2 c : closes (l1 ++ l2) c = closes l1 c + closes l2 c.
Proof. unfold closes. by rewrite filter_app, length_app. Qed.

Lemma closes_entrySteps entry c :
  closes (entrySteps entry) c = if decide (stopChan entry.2 = Some c) then 1 else 0.
Proof.
  unfold closes, entrySteps. destruct (stopChan entry.2) as [c'|].
  - rewrite !filter_cons, filter_nil.
    destruct (decide (AMapDelete entry.1 = AClose c)); [done|].
    destruct (decide (AClose c' = AClose c)) as [[= ->]|Hne].
    + by rewrite decide_True.
    + rewrite decide_False; [done|]. by intros [= ->].
  - by destruct (decide (None = Some c)).
Qed.

Lemma closes_entries_absent (entries : list (string * informer)) c :
  Some c ∉ (fun e => stopChan e.2) <$> entries ->
  closes (entries ≫= entrySteps) c = 0.
Proof.
  induction entries as [|e entries IH]; [done|].
  rewrite fmap_cons, not_elem_of_cons. intros [Hne Hnin].
  rewrite bind_cons, closes_app, closes_entrySteps, IH by done.
  by destruct (decide (stopChan e.2 = Some c)).
Qed.

Lemma closes_entries_once (entries : list (string * informer)) c :
  NoDup ((fun e => stopChan e.2) <$> entries) ->
  Some c ∈ (fun e => stopChan e.2) <$> entries ->
  closes (entries ≫= entrySteps) c = 1.
Proof.
  induction entries as [|e entries IH]; [by intros _ ?%elem_of_nil|].
  rewrite fmap_cons, NoDup_cons. intros [Hnin Hnd].
  rewrite bind_cons, closes_app, closes_entrySteps.
  intros [Heq|Hin]%elem_of_cons.
  - destruct (decide (stopChan e.2 = Some c)); [|done].
    rewrite closes_entries_absent; [done|]. by rewrite Heq.
  - destruct (decide (stopChan e.2 = Some c)) as [Heq|].
    + destruct Hnin. by rewrite Heq.
    + by rewrite IH.
Qed.

Lemma NoDup_entry_chans (entries : list (string * informer)) :
  NoDup entries.*1 ->
  (forall e1 e2, e1 ∈ entries -> e2 ∈ entries ->
     stopChan e1.2 = stopChan e2.2 -> e1.1 = e2.1) ->
  NoDup ((fun e => stopChan e.2) <$> entries).
Proof.
  induction entries as [|e entries IH]; [constructor|].
  rewrite !fmap_cons, !NoDup_cons. intros [Hkey Hnd] Hinj. split.
  - intros (e' & Heq & Hin)%list_elem_of_fmap. apply Hkey.
    apply list_elem_of_fmap. exists e'. split; [|done].
    apply Hinj; [left|by right|done].
  - apply IH; [done|]. intros e1 e2 H1 H2. apply Hinj; by right.
Qed.

Lemma stopEntries_ok (entries : list (string * informer)) (f : federatedInformerImpl) :
  NoDup ((fun e => stopChan e.2) <$> entries) ->
  Forall (fun e => openChan f (stopChan e.2)) entries ->
  exists f',
    stopEntries entries f = Ok f'
    ∧ (forall k, targetInformers f' !! k
                 = if decide (k ∈ entries.*1) then None else targetInformers f !! k)
    ∧ (forall c, c ∈ closed f' <->
                 c ∈ closed f ∨ Some c ∈ (fun e => stopChan e.2) <$> entries)
    ∧ nextChan f' = nextChan f
    ∧ trace f' = trace f ++ (entries ≫= entrySteps).
Proof.
  revert f. induction entries as [|e entries IH]; intros f Hnd Hopen.
  - exists f. simpl. split; [done|]. split; [done|]. split.
    + intros c. rewrite elem_of_nil. tauto.
    + by rewrite app_nil_r.
  - rewrite fmap_cons, NoDup_cons in Hnd. destruct Hnd as [Hnin Hnd].
    apply Forall_cons in Hopen as [He Hopen].
    destruct (stopChan e.2) as [c|] eqn:Hc; [|done]. destruct He as [Hce Hlt].
    simpl. unfold stopEntry. rewrite Hc. unfold closeChan.
    rewrite bool_decide_eq_false_2 by done. simpl.
    match goal with |- context [stopEntries entries ?g] => set (f1 := g) end.
    destruct (IH f1) as (f' & Hrun & Hmap & Hclosed & Hnext & Htrace).
    { done. }
    { apply Forall_forall. intros e' Hin.
      rewrite Forall_forall in Hopen. specialize (Hopen e' Hin).
      destruct (stopChan e'.2) as [c'|] eqn:Hc'; [|done]. destruct Hopen as [Hc1 Hc2].
      simpl. split; [|done].
      intros [?| ->%elem_of_singleton]%elem_of_union; [done|].
      apply Hnin. apply list_elem_of_fmap. by exists e'. }
    exists f'. split; [done|]. split; [|split; [|split]].
    + intros k. rewrite Hmap.
      change (targetInformers f1) with (delete e.1 (targetInformers f)).
      rewrite lookup_delete.
      destruct (decide (k ∈ entries.*1)) as [Hin|Hnotin].
      * rewrite decide_True; [done|by right].
      * case_decide as Hk.
        -- rewrite decide_True; [done|]. rewrite <- Hk. left.
        -- rewrite decide_False; [done|].
           intros [?|?]%elem_of_cons; [by apply Hk|done].
    + intros c'. rewrite Hclosed. simpl. rewrite elem_of_union, elem_of_singleton.
      rewrite elem_of_cons. split.
      * intros [[?| ->]|?]; auto.
      * intros [?|[[= ->]|?]]; auto.
    + by rewrite Hnext.
    + rewrite Htrace. simpl. unfold entrySteps at 2. rewrite Hc.
      rewrite <- !app_assoc. reflexivity.
Qed.

Lemma entrySteps_kinds (entries : list (string * informer)) a :
  a ∈ entries ≫= entrySteps -> a ≠ ALock ∧ a ≠ AUnlock.
Proof.
  intros (e & Ha & _)%list_elem_of_bind. unfold entrySteps in Ha.
  destruct (stopChan e.2); [|by apply elem_of_nil in Ha].
  apply elem_of_cons in Ha as [->|Ha]; [done|].
  apply list_elem_of_singleton in Ha as ->. done.
Qed.

(** C3: [Stop], called on a started informer that keeps the channel
    discipline, closes the stop channel of the registry watch loop and of
    every target informer exactly once each, deletes each target informer
    from the map right after closing its channel and before the lock is
    released, and leaves the map empty, in whatever order the map is ranged
    over; a cluster deletion that arrives afterwards closes nothing. *)
Theorem Stop_cancels_each_entry_once (f : federatedInformerImpl)
    (entries : list (string * informer)) (c0 : nat) :
  wf f ->
  started f ->
  stopChan (clusterInformer f) = Some c0 ->
  entries ≡ₚ map_to_list (targetInformers f) ->
  exists f',
    StopIn entries f = Ok f'
    ∧ targetInformers f' = ∅
    ∧ newSteps f f' = stopSteps c0 entries
    ∧ (exists body, newSteps f f' = ALock :: body ++ [AUnlock]
                    ∧ (ALock ∉ body) ∧ (AUnlock ∉ body))
    ∧ closes (newSteps f f') c0 = 1
    ∧ (forall name inf c,
         targetInformers f !! name = Some inf -> stopChan inf = Some c ->
         closes (newSteps f f') c = 1
         ∧ exists before after,
             newSteps f f'
             = [ALock; AClose c0] ++ before ++ [AClose c; AMapDelete name]
                 ++ after ++ [AUnlock])
    ∧ (forall cluster, exists f'',
         deleteCluster cluster f' = Ok f''
         ∧ forall c, closes (newSteps f' f'') c = 0).
Proof.
  intros Hwf [Hc0open Hc0own] Hc0 Hperm.
  rewrite Hc0 in Hc0open. destruct Hc0open as [Hc0closed Hc0lt].
  assert (Hmem : forall name inf,
             (name, inf) ∈ entries <-> targetInformers f !! name = Some inf).
  { intros name inf. rewrite Hperm. apply elem_of_map_to_list. }
  assert (Hnd : NoDup ((fun e => stopChan e.2) <$> entries)).
  { apply NoDup_entry_chans.
    - rewrite Hperm. apply NoDup_fst_map_to_list.
    - intros [n1 i1] [n2 i2] H1%Hmem H2%Hmem. simpl.
      by apply (wf_distinct f n1 i1 n2 i2). }
  assert (Hnot0 : Some c0 ∉ (fun e => stopChan e.2) <$> entries).
  { intros ([n i] & Heq & Hin%Hmem)%list_elem_of_fmap. simpl in Heq.
    apply (Hc0own n i Hin). congruence. }
  unfold StopIn. simpl. rewrite Hc0. unfold closeChan. simpl.
  rewrite bool_decide_eq_false_2 by done. simpl.
  match goal with |- context [stopEntries entries ?g] => set (f1 := g) end.
  destruct (stopEntries_ok entries f1) as (f2 & Hrun & Hmap & Hclosed & Hnext & Htrace).
  { done. }
  { apply Forall_forall. intros [n i] Hin%Hmem. simpl.
    pose proof (wf_open _ _ _ Hwf Hin) as Ho.
    destruct (stopChan i) as [c|] eqn:Hc; [|done]. destruct Ho as [Ho1 Ho2].
    simpl. split; [|done].
    intros [?| ->%elem_of_singleton]%elem_of_union; [done|].
    apply (Hc0own n i Hin). congruence. }
  rewrite Hrun. simpl. eexists. split; [reflexivity|].
  assert (Hsteps : newSteps f (emit AUnlock f2) = stopSteps c0 entries).
  { apply newSteps_app. simpl. rewrite Htrace. simpl.
    unfold stopSteps. rewrite <- !app_assoc. reflexivity. }
  assert (Hempty : targetInformers f2 = ∅).
  { apply map_eq. intros k. rewrite Hmap, lookup_empty.
    case_decide as Hk; [done|]. simpl.
    destruct (targetInformers f !! k) as [inf|] eqn:Hinf; [|done].
    destruct Hk. apply list_elem_of_fmap. exists (k, inf). split; [done|].
    by apply Hmem. }
  split; [done|]. split; [done|]. split; [|split; [|split]].
  - rewrite Hsteps. exists (AClose c0 :: (entries ≫= entrySteps)).
    split; [done|]. split.
    + intros [?|Hin%entrySteps_kinds]%elem_of_cons; [done|]. by destruct Hin.
    + intros [?|Hin%entrySteps_kinds]%elem_of_cons; [done|]. by destruct Hin.
  - rewrite Hsteps. unfold stopSteps. rewrite !closes_app.
    rewrite closes_entries_absent by done.
    unfold closes. rewrite !filter_cons, filter_nil.
    rewrite decide_False by done. rewrite decide_True by done.
    rewrite decide_False by done. done.
  - intros name inf c Hinf Hc. apply Hmem in Hinf as Hin. split.
    + rewrite Hsteps. unfold stopSteps. rewrite !closes_app.
      rewrite closes_entries_once; [| done |].
      * unfold closes. rewrite !filter_cons, filter_nil.
        rewrite decide_False by done. rewrite decide_False.
        -- rewrite decide_False by done. done.
        -- intros [= ->]. apply Hnot0. apply list_elem_of_fmap.
           exists (name, inf). by split.
      * apply list_elem_of_fmap. exists (name, inf). split; [by simpl|done].
    + apply list_elem_of_split in Hin as (l1 & l2 & ->).
      exists (l1 ≫= entrySteps), (l2 ≫= entrySteps).
      rewrite Hsteps. unfold stopSteps.
      rewrite bind_app, bind_cons. unfold entrySteps at 2. simpl. rewrite Hc.
      rewrite <- !app_assoc. reflexivity.
  - intros cluster. eexists. split.
    + apply deleteCluster_missing. simpl. by rewrite Hempty.
    + intros c. erewrite newSteps_app; [|reflexivity]. reflexivity.
Qed.

Lemma Stop_cancels_each_entry_once_witness :
  exists f',
    StopIn (map_to_list (targetInformers runningInformer)) runningInformer = Ok f'
    ∧ targetInformers f' = ∅
    ∧ closes (newSteps runningInformer f') 0 = 1
    ∧ closes (newSteps runningInformer f') 1 = 1
    ∧ closes (newSteps runningInformer f') 2 = 1.
Proof.
  destruct (Stop_cancels_each_entry_once runningInformer
              (map_to_list (targetInformers runningInformer)) 0)
    as (f' & Hstop & Hempty & _ & _ & H0 & Hentries & _).
  - apply (bool_decide_unpack (wf runningInformer)). vm_compute. exact I.
  - apply (bool_decide_unpack (started runningInformer)). vm_compute. exact I.
  - vm_compute. reflexivity.
  - reflexivity.
  - exists f'. split; [exact Hstop|]. split; [exact Hempty|]. split; [exact H0|].
    split.
    + refine (proj1 (Hentries "c1" _ 1 _ _)); vm_compute; reflexivity.
    + refine (proj1 (Hentries "c2" _ 2 _ _)); vm_compute; reflexivity.
Defined.

(** ** The lifecycle handlers *)









Lemma UpdateFunc_unchanged clusterLifecycle o c f :
  clusterChanged o c = false ->
  UpdateFunc clusterLifecycle (ObjCluster o) (ObjCluster c) f = Ok f.
Proof. unfold UpdateFunc. by intros ->. Qed.

Lemma UpdateFunc_changed clusterLifecycle o c f f1 :
  clusterChanged o c = true ->
  deleteCluster o f = Ok f1 ->
  UpdateFunc clusterLifecycle (ObjCluster o) (ObjCluster c) f
  = Ok (let f2 := if ClusterUnavailable clusterLifecycle
                  then emit (ACallUnavailable o (getClusterData f (Name o))) f1
                  else f1 in
        if IsClusterReady c
        then (if ClusterAvailable clusterLifecycle
              then emit (ACallAvailable c) (addCluster c f2) else addCluster c f2)
        else f2).
Proof.
  unfold UpdateFunc. intros -> ->.
  by destruct (ClusterUnavailable clusterLifecycle), (IsClusterReady c),
    (ClusterAvailable clusterLifecycle).
Qed.

Lemma DeleteFunc_cluster clusterLifecycle o f f1 :
  deleteCluster o f = Ok f1 ->
  DeleteFunc clusterLifecycle (ObjCluster o) f
  = Ok (if ClusterUnavailable clusterLifecycle
        then emit (ACallUnavailable o (getClusterData f (Name o))) f1
        else f1).
Proof.
  unfold DeleteFunc. intros ->.
  by destruct (ClusterUnavailable clusterLifecycle).
Qed.











Lemma clusterChanged_false old cur :
  clusterChanged old cur = false
  <-> IsClusterReady old = IsClusterReady cur
      ∧ Spec old = Spec cur
      ∧ Annotations old = Annotations cur.
Proof.
  unfold clusterChanged. rewrite !orb_false_iff, !negb_false_iff, !bool_decide_eq_true.
  tauto.
Qed.

Lemma clusterChanged_true old cur :
  clusterChanged old cur = true
  <-> IsClusterReady old ≠ IsClusterReady cur
      ∨ Spec old ≠ Spec cur
      ∨ Annotations old ≠ Annotations cur.
Proof.
  unfold clusterChanged. rewrite !orb_true_iff, !negb_true_iff, !bool_decide_eq_false.
  tauto.
Qed.

Lemma getClusterData_snapshot f name : getClusterData f name = snapshot f name.
Proof.
  unfold getClusterData, ListFromCluster, snapshot.
  by destruct (targetInformers f !! name).
Qed.

Lemma deleteCluster_wf cluster f :
  wf f ->
  exists cl,
    deleteCluster cluster f
    = Ok (withDynamic (delete (Name cluster) (targetInformers f)) cl (nextChan f)
            (trace f ++ teardownSteps f (Name cluster)) f)
    ∧ nextChan f ∉ cl.
Proof.
  intros Hwf. unfold teardownSteps.
  assert (Hfresh : nextChan f ∉ closed f).
  { destruct Hwf as (_ & _ & Hclosed). intros Hin. apply Hclosed in Hin. lia. }
  destruct (targetInformers f !! Name cluster) as [inf|] eqn:Hinf.
  - pose proof (wf_open _ _ _ Hwf Hinf) as Ho.
    destruct (stopChan inf) as [c|] eqn:Hc; [|done]. destruct Ho as [Hnc Hlt].
    exists (closed f ∪ {[c]}). split.
    + exact (deleteCluster_found _ _ inf c Hinf Hc Hnc).
    + intros [?|Heq%elem_of_singleton]%elem_of_union; [done|lia].
  - exists (closed f). split; [|done].
    rewrite delete_id by done. exact (deleteCluster_missing _ _ Hinf).
Qed.

Lemma getClient_withDynamic m cl nx tr f name :
  getClientForClusterUnlocked (withDynamic m cl nx tr f) name
  = getClientForClusterUnlocked f name.
Proof. reflexivity. Qed.

(** C5, amended: an update that changes neither readiness nor spec nor
    annotations leaves the informer as it is and fires no callback.  An
    update that changes one of them first tears the old entry down (its stop
    channel closed, the entry deleted), then fires the unavailable callback,
    if one is registered, with what the entry's store listed before the
    teardown; then, only if the new state is ready, [addCluster] runs, which
    creates a fresh entry when a client for the cluster can be built and none
    when it cannot, and the available callback fires if one is registered. *)
Theorem UpdateFunc_teardown_then_add (clusterLifecycle : ClusterLifecycleHandlerFuncs)
    (old cur : FederatedCluster) (f : federatedInformerImpl) :
  wf f ->
  (IsClusterReady old = IsClusterReady cur ->
   Spec old = Spec cur ->
   Annotations old = Annotations cur ->
   UpdateFunc clusterLifecycle (ObjCluster old) (ObjCluster cur) f = Ok f)
  ∧ (IsClusterReady old ≠ IsClusterReady cur
     ∨ Spec old ≠ Spec cur
     ∨ Annotations old ≠ Annotations cur ->
     exists f1 f',
       deleteCluster old f = Ok f1
       ∧ targetInformers f1 = delete (Name old) (targetInformers f)
       ∧ UpdateFunc clusterLifecycle (ObjCluster old) (ObjCluster cur) f = Ok f'
       ∧ newSteps f f'
         = teardownSteps f (Name old)
             ++ unavailableCall clusterLifecycle old (snapshot f (Name old))
             ++ (if IsClusterReady cur
                 then addSteps f cur ++ availableCall clusterLifecycle cur
                 else [])
       ∧ (IsClusterReady cur = false -> targetInformers f' = targetInformers f1)
       ∧ (IsClusterReady cur = true ->
          forall client,
            getClientForClusterUnlocked f (Name cur) = (client, None) ->
            targetInformers f'
            = <[Name cur := freshInformer f cur client]> (targetInformers f1)
            ∧ openChan f' (Some (nextChan f)))
       ∧ (IsClusterReady cur = true ->
          forall client err,
            getClientForClusterUnlocked f (Name cur) = (client, Some err) ->
            targetInformers f' = targetInformers f1)).
Proof.
  intros Hwf. split.
  { intros H1 H2 H3. apply UpdateFunc_unchanged. by apply clusterChanged_false. }
  intros Hchanged%clusterChanged_true.
  destruct (deleteCluster_wf old f Hwf) as (cl & Hdel & Hfresh).
  eexists _, _. split; [exact Hdel|]. split; [reflexivity|].
  rewrite (UpdateFunc_changed _ _ _ _ _ Hchanged Hdel). split; [reflexivity|].
  cbv zeta. rewrite getClusterData_snapshot.
  unfold unavailableCall, availableCall, addSteps.
  set (td := teardownSteps f (Name old)) in *. clearbody td.
  destruct (getClientForClusterUnlocked f (Name cur)) as [client [err|]] eqn:Hclient.
  - destruct (ClusterUnavailable clusterLifecycle), (IsClusterReady cur),
      (ClusterAvailable clusterLifecycle);
      rewrite ?(addCluster_failure cur _ client err) by exact Hclient;
      (split; [apply newSteps_app; simpl; rewrite <- ?app_assoc, ?app_nil_r; reflexivity|]);
      (split; [done|]); (split; [by intros _ client' [= ]|]);
      intros _ client' err' _; reflexivity.
  - destruct (ClusterUnavailable clusterLifecycle), (IsClusterReady cur),
      (ClusterAvailable clusterLifecycle);
      rewrite ?(addCluster_success cur _ client) by exact Hclient;
      (split; [apply newSteps_app; simpl; rewrite <- ?app_assoc, ?app_nil_r; reflexivity|]);
      (split; [done|]);
      (split; [|by intros _ client' err' [= ]]);
      intros Hr client' [= <-]; try done;
      (split; [reflexivity|]); simpl; (split; [done|lia]).
Qed.

Lemma UpdateFunc_teardown_then_add_witness :
  exists f',
    UpdateFunc bothCallbacks (ObjCluster c1Ready) (ObjCluster c1Moved) movedInformer = Ok f'
    ∧ targetInformers f' !! Name c1Moved
      = Some (freshInformer movedInformer c1Moved (Some okClient)).
Proof.
  assert (Hwf : wf movedInformer).
  { apply (bool_decide_unpack (wf movedInformer)). vm_compute. exact I. }
  assert (Hspec : Spec c1Ready ≠ Spec c1Moved) by (intros H; discriminate H).
  assert (Hclient : getClientForClusterUnlocked movedInformer (Name c1Moved)
                    = (Some okClient, None)) by (vm_compute; reflexivity).
  destruct (proj2 (UpdateFunc_teardown_then_add bothCallbacks c1Ready c1Moved
                     movedInformer Hwf) (or_intror (or_introl Hspec)))
    as (f1 & f' & _ & _ & Hupd & _ & _ & Hadd & _).
  exists f'. split; [exact Hupd|].
  destruct (Hadd eq_refl (Some okClient) Hclient) as [Hmap _].
  rewrite Hmap. apply lookup_insert_eq.
Defined.

(** C5 as stated fails: the update changes the spec and the new state is
    ready, but the client factory fails, so no entry is created. *)
Lemma UpdateFunc_counterexample :
  wf failingInformer
  ∧ Spec c1Ready ≠ Spec c1Moved
  ∧ IsClusterReady c1Moved = true
  ∧ exists f',
      UpdateFunc bothCallbacks (ObjCluster c1Ready) (ObjCluster c1Moved) failingInformer
      = Ok f'
      ∧ targetInformers f' !! Name c1Moved = None
      ∧ ACallAvailable c1Moved ∈ trace f'.
Proof.
  split.
  { apply (bool_decide_unpack (wf failingInformer)). vm_compute. exact I. }
  split; [intros H; discriminate H|]. split; [reflexivity|].
  eexists. split; [reflexivity|]. split; [reflexivity|].
  simpl. rewrite !elem_of_app. right. apply list_elem_of_singleton. reflexivity.
Qed.

Import Dispatch.

(** ** The dispatcher *)






(** ** The unmanaged dispatcher *)

Lemma runGoroutine_spawned key oe t w :
  runGoroutine key oe (length (pending w)) (spawn t w) = runTask key oe t w.
Proof.
  unfold runGoroutine, spawn. simpl.
  rewrite lookup_app_r by lia. rewrite Nat.sub_diag. simpl.
  rewrite take_app_length.
  rewrite drop_ge by (rewrite length_app; simpl; lia).
  rewrite app_nil_r. by destruct w.
Qed.

Lemma announce_same clusterName op opContinuous w :
  self (announce clusterName op opContinuous w) = self w
  ∧ heap (announce clusterName op opContinuous w) = heap w
  ∧ nextLoc (announce clusterName op opContinuous w) = nextLoc w
  ∧ pending (announce clusterName op opContinuous w) = pending w.
Proof. unfold announce. by destruct (recorder (self w)). Qed.

Lemma reportFailure_same code clusterName op e w :
  self (reportFailure code clusterName op e w) = self w
  ∧ heap (reportFailure code clusterName op e w) = heap w
  ∧ nextLoc (reportFailure code clusterName op e w) = nextLoc w
  ∧ pending (reportFailure code clusterName op e w) = pending w.
Proof. unfold reportFailure. by destruct (recorder (self w)). Qed.

Lemma deleteOperation_status clusterName client w :
  let err := Delete client (qnNamespace (targetName (self w)))
               (qnName (targetName (self w))) in
  exists w',
    deleteOperation clusterName client w
    = Ok (if bool_decide (err = None) || IsNotFound err then StatusAllOK else StatusError,
          w')
    ∧ self w' = self w ∧ heap w' = heap w ∧ pending w' = pending w.
Proof.
  intros err. unfold deleteOperation. cbv zeta.
  destruct (announce_same clusterName "delete" "Deleting" w) as (Hs & Hh & _ & Hp).
  rewrite Hs. fold err.
  destruct err as [e|] eqn:Herr.
  - destruct (IsNotFound (Some e)) eqn:Hnf; simpl.
    + eexists. split; [reflexivity|]. done.
    + eexists. split; [reflexivity|].
      destruct (reportFailure_same "DeletionFailed" clusterName "delete" e
                  (announce clusterName "delete" "Deleting" w)) as (Hs' & Hh' & _ & Hp').
      by rewrite Hs', Hh', Hp'.
  - simpl. eexists. split; [reflexivity|]. done.
Qed.

(** C8: when the remote delete call of [Delete(clusterName)] answers with a
    not-found error, the closure returns all-ok and all-ok is the outcome
    recorded for the cluster; any other error that is not nil makes the
    closure return the error outcome, which is then the one recorded. *)
Theorem Delete_not_found_is_all_ok (key : string)
    (outcomeError : string -> string -> ReconciliationStatus -> option error)
    (clusterName : string) (client : ResourceClient) (w : world) :
  clientAccessor (dispatcher (self w)) clusterName = inl client ->
  let err := Delete client (qnNamespace (targetName (self w)))
               (qnName (targetName (self w))) in
  let recorded status w' :=
    runGoroutine key outcomeError (length (pending w)) (unmanagedDelete clusterName w)
    = Ok w'
    ∧ dispatcher (self w')
      = recordOutcome status (outcomeError clusterName "delete" status)
          (incrementOperationsInitiated (dispatcher (self w))) in
  (IsNotFound err = true ->
   (exists w', deleteOperation clusterName client w = Ok (StatusAllOK, w'))
   ∧ exists w', recorded StatusAllOK w')
  ∧ (forall e, err = Some e -> IsNotFound err = false ->
     (exists w', deleteOperation clusterName client w = Ok (StatusError, w'))
     ∧ exists w', recorded StatusError w').
Proof.
  intros Hclient err recorded.
  assert (Hrun : forall status,
    (if bool_decide (err = None) || IsNotFound err then StatusAllOK else StatusError)
    = status -> exists w', recorded status w').
  { intros status Hstatus. unfold recorded, unmanagedDelete. cbv zeta.
    change (length (pending w)) with
      (length (pending (setDispatcher
                          (incrementOperationsInitiated (dispatcher (self w))) w))).
    rewrite runGoroutine_spawned. unfold runTask, clusterOperation. simpl.
    rewrite Hclient.
    destruct (deleteOperation_status clusterName client
                (setDispatcher (incrementOperationsInitiated (dispatcher (self w))) w))
      as (w' & Hop & Hself & _).
    simpl in Hop. fold err in Hop. rewrite Hstatus in Hop.
    rewrite Hop. simpl. eexists. split; [reflexivity|]. simpl. by rewrite Hself. }
  destruct (deleteOperation_status clusterName client w) as (w1 & Hop & _).
  fold err in Hop. split.
  - intros Hnf. rewrite Hnf, orb_true_r in Hop. split; [by exists w1|].
    apply Hrun. by rewrite Hnf, orb_true_r.
  - intros e He Hnf. rewrite Hnf, He in Hop. simpl in Hop. split; [by exists w1|].
    apply Hrun. by rewrite Hnf, He.
Qed.

Lemma Delete_not_found_is_all_ok_witness :
  exists w',
    runGoroutine managedKey noOutcomeError 0 (unmanagedDelete "c1" sampleWorld) = Ok w'
    ∧ dispatcher (self w')
      = recordOutcome StatusAllOK None
          (incrementOperationsInitiated (dispatcher (self sampleWorld))).
Proof.
  destruct (Delete_not_found_is_all_ok managedKey noOutcomeError "c1" notFoundClient
              sampleWorld eq_refl) as [Hnf _].
  destruct (Hnf eq_refl) as [_ (w' & Hrun & Hd)].
  exists w'. split; [exact Hrun|exact Hd].
Defined.

Lemma removeManagedLabelOperation_heap key clusterName l o client w :
  heap w !! l = Some o ->
  exists status w',
    removeManagedLabelOperation key clusterName (Some l) client w = Ok (status, w')
    ∧ heap w'
      = <[nextLoc w := (Update client (objNamespace o) (utilRemoveManagedLabel key o)).1]>
          (heap w)
    ∧ self w' = self w.
Proof.
  intros Hl. unfold removeManagedLabelOperation. cbv zeta.
  destruct (announce_same clusterName "remove managed label from"
              "Removing managed label from" w) as (Hs & Hh & Hn & Hp).
  set (w1 := announce _ _ _ w) in *. clearbody w1.
  unfold DeepCopy. rewrite Hh, Hl, Hn. simpl. rewrite lookup_insert_eq.
  change (objNamespace (utilRemoveManagedLabel key o)) with (objNamespace o).
  destruct (Update client (objNamespace o) (utilRemoveManagedLabel key o))
    as [o2 [e|]] eqn:Hupd; simpl.
  - eexists _, _. split; [reflexivity|].
    match goal with |- context [reportFailure ?a ?b ?c ?d ?x] =>
      destruct (reportFailure_same a b c d x) as (Hs' & Hh' & _) end.
    rewrite Hs', Hh'. simpl. rewrite insert_insert_eq. by rewrite ?Hh, ?Hs.
  - eexists _, _. split; [reflexivity|]. simpl. rewrite insert_insert_eq. by rewrite ?Hh, ?Hs.
Qed.

(** C9: [RemoveManagedLabel(clusterName, clusterObj)] leaves the object it is
    handed, and every other object that existed before the call, as it was:
    the managed label is stripped from a deep copy, allocated by the call,
    and it is the copy that is handed to the client's update. *)
Theorem RemoveManagedLabel_leaves_original (key : string)
    (outcomeError : string -> string -> ReconciliationStatus -> option error)
    (clusterName : string) (l : nat) (o : Unstructured) (w : world) :
  heap w !! l = Some o ->
  heapFresh w ->
  exists w',
    runGoroutine key outcomeError (length (pending w))
      (RemoveManagedLabel clusterName (Some l) w) = Ok w'
    ∧ heap w' !! l = Some o
    ∧ (forall l' o', heap w !! l' = Some o' -> heap w' !! l' = Some o')
    ∧ (forall client,
         clientAccessor (dispatcher (self w)) clusterName = inl client ->
         heap w !! nextLoc w = None
         ∧ heap w' !! nextLoc w
           = Some (Update client (objNamespace o) (utilRemoveManagedLabel key o)).1).
Proof.
  intros Hl Hfresh. unfold RemoveManagedLabel. cbv zeta.
  change (length (pending w)) with
    (length (pending (setDispatcher
                        (incrementOperationsInitiated (dispatcher (self w))) w))).
  rewrite runGoroutine_spawned. unfold runTask, clusterOperation. simpl.
  assert (Hnew : heap w !! nextLoc w = None).
  { destruct (heap w !! nextLoc w) as [o'|] eqn:Hn; [|done].
    apply Hfresh in Hn. simpl in Hn. lia. }
  destruct (clientAccessor (dispatcher (self w)) clusterName) as [client|err] eqn:Hacc.
  - destruct (removeManagedLabelOperation_heap key clusterName l o client
                (setDispatcher (incrementOperationsInitiated (dispatcher (self w))) w) Hl)
      as (status & w1 & Hop & Hheap & Hself).
    rewrite Hop. simpl. eexists. split; [reflexivity|]. simpl. rewrite Hheap. simpl.
    assert (Hkeep : forall l' o', heap w !! l' = Some o' ->
              <[nextLoc w := (Update client (objNamespace o)
                                (utilRemoveManagedLabel key o)).1]> (heap w) !! l'
              = Some o').
    { intros l' o' Hl'. rewrite lookup_insert_ne; [done|]. intros <-. congruence. }
    split; [by apply Hkeep|]. split; [done|].
    intros client' [= <-]. split; [done|]. by rewrite lookup_insert_eq.
  - eexists. split; [reflexivity|]. simpl. split; [done|]. split; [done|].
    intros client [=].
Qed.

Lemma RemoveManagedLabel_leaves_original_witness :
  exists w',
    runGoroutine managedKey noOutcomeError 0
      (RemoveManagedLabel "c1" (Some 0) sampleWorld) = Ok w'
    ∧ heap w' !! 0 = Some sampleObject
    ∧ heap w' !! 1 = Some (utilRemoveManagedLabel managedKey sampleObject).
Proof.
  destruct (RemoveManagedLabel_leaves_original managedKey noOutcomeError "c1" 0
              sampleObject sampleWorld) as (w' & Hrun & Horig & _ & Hcopy).
  - reflexivity.
  - apply (bool_decide_unpack (heapFresh sampleWorld)). vm_compute. exact I.
  - exists w'. split; [exact Hrun|]. split; [exact Horig|].
    exact (proj2 (Hcopy notFoundClient eq_refl)).
Defined.

(** ** The channel discipline as an invariant *)

(** X2: The channel discipline is kept by [Start], [addCluster] and
    [deleteCluster]: [Start] gives the registry watch loop an open channel
    that no target informer has, [addCluster] whether or not it creates an
    entry, and [deleteCluster], which under the discipline never panics. *)
Theorem discipline_is_invariant (cluster : FederatedCluster) (f : federatedInformerImpl) :
  wf f ->
  (wf (Start f) ∧ started (Start f))
  ∧ wf (addCluster cluster f)
  ∧ (started f -> started (addCluster cluster f))
  ∧ exists f', deleteCluster cluster f = Ok f' ∧ wf f' ∧ (started f -> started f').
Proof.
  intros Hwf. split; [by apply Start_started|]. split; [by apply wf_addCluster|].
  split; [by apply started_addCluster|].
  destruct (wf_deleteCluster cluster f Hwf) as (f' & Hdel & Hwf' & _).
  exists f'. split; [done|]. split; [done|]. intros Hst.
  by apply (started_deleteCluster cluster f f').
Qed.

Lemma discipline_is_invariant_witness :
  wf (addCluster c1Ready runningInformer)
  ∧ exists f', deleteCluster c1Ready runningInformer = Ok f' ∧ wf f'.
Proof.
  destruct (discipline_is_invariant c1Ready runningInformer)
    as (_ & Hadd & _ & f' & Hdel & Hwf & _).
  - apply (bool_decide_unpack (wf runningInformer)). vm_compute. exact I.
  - split; [exact Hadd|]. exists f'. split; [exact Hdel|exact Hwf].
Defined.

(** X1: [IsClusterReady] is true exactly when some condition of the cluster, at
    any position, has type Ready and status True; conditions of other types
    and Ready conditions with another status are skipped. *)
Theorem IsClusterReady_iff_some_condition (cluster : FederatedCluster) :
  IsClusterReady cluster = true
  <-> exists i condition,
        Conditions cluster !! i = Some condition
        ∧ Type_ condition = ClusterReady ∧ Status condition = ConditionTrue.
Proof.
  rewrite IsClusterReady_spec. split.
  - intros (c & Hin & H1 & H2). apply list_elem_of_lookup in Hin as [i Hi].
    by exists i, c.
  - intros (i & c & Hi & H1 & H2). exists c. split; [|done].
    by apply list_elem_of_lookup_2 in Hi.
Qed.

(** X15: When the registry cache fails on the lookup, or holds under the
    cluster's key something that is not a FederatedCluster,
    [GetClientForCluster] returns that error, or the wrong-data error, and no
    client, rather than the not-found error. *)
Theorem GetClientForCluster_lookup_errors (f : federatedInformerImpl) (name : string) :
  let lookup := GetByKey (store (clusterInformer f)) (fedNamespace f +:+ "/" +:+ name) in
  (forall o exist err, lookup = (o, exist, Some err) ->
     GetClientForCluster f name = (None, Some err)
     ∧ GetReadyCluster f name = (None, false, Some err))
  ∧ (forall o, lookup = (o, true, None) ->
       (forall cluster, o ≠ Some (ObjCluster cluster)) ->
       GetClientForCluster f name = (None, Some wrongData)
       ∧ GetReadyCluster f name = (None, false, Some wrongData)).
Proof.
  unfold GetClientForCluster, GetReadyCluster, getClientForClusterUnlocked,
    getReadyClusterUnlocked.
  split.
  - intros o exist err ->. by destruct exist.
  - intros o -> Hnot. destruct o as [[c|tag]|]; [|done|done].
    by destruct (Hnot c).
Qed.

Example GetClientForCluster_wrong_data_example :
  GetClientForCluster
    (withRegistry (<["fed/c1" := ObjOther "pod"]> ∅) (newInformer goodFactory)) "c1"
  = (None, Some wrongData).
Proof. reflexivity. Qed.

(** ** Further properties of the informer's lifecycle operations *)

Lemma deleteCluster_Ok_fields cluster f f' :
  deleteCluster cluster f = Ok f' ->
  targetInformers f' = delete (Name cluster) (targetInformers f)
  ∧ closed f ⊆ closed f'
  ∧ nextChan f' = nextChan f
  ∧ clusterInformer f' = clusterInformer f
  ∧ clientFactory f' = clientFactory f
  ∧ fedNamespace f' = fedNamespace f.
Proof.
  unfold deleteCluster. simpl.
  destruct (targetInformers f !! Name cluster) as [inf|] eqn:Hinf; simpl.
  - unfold closeChan. destruct (stopChan inf) as [c|]; [|done]. simpl.
    case_bool_decide; [done|]. simpl. intros [= <-]. simpl.
    repeat split; try done. apply union_subseteq_l.
  - intros [= <-]. simpl. repeat split; done.
Qed.

(** X3: Deleting a cluster twice closes its stop channel once: the second
    [deleteCluster] finds no entry, closes nothing and does not panic. *)
Theorem deleteCluster_twice (cluster : FederatedCluster) (f : federatedInformerImpl) :
  wf f ->
  exists f1 f2,
    deleteCluster cluster f = Ok f1
    ∧ deleteCluster cluster f1 = Ok f2
    ∧ targetInformers f1 !! Name cluster = None
    ∧ targetInformers f2 = targetInformers f1
    ∧ closed f2 = closed f1
    ∧ forall c, closes (newSteps f1 f2) c = 0.
Proof.
  intros Hwf.
  destruct (wf_deleteCluster cluster f Hwf) as (f1 & Hdel & _ & Hmap & _).
  assert (Hnone : targetInformers f1 !! Name cluster = None).
  { rewrite Hmap. apply lookup_delete_eq. }
  exists f1. eexists. split; [done|].
  split; [by apply deleteCluster_missing|].
  split; [done|]. split; [done|]. split; [done|].
  intros c. erewrite newSteps_app; [|reflexivity]. reflexivity.
Qed.

Lemma deleteCluster_twice_witness :
  exists f1 f2,
    deleteCluster c1Ready runningInformer = Ok f1
    ∧ deleteCluster c1Ready f1 = Ok f2
    ∧ closed f2 = closed f1.
Proof.
  destruct (deleteCluster_twice c1Ready runningInformer)
    as (f1 & f2 & H1 & H2 & _ & _ & Hclosed & _).
  - apply (bool_decide_unpack (wf runningInformer)). vm_compute. exact I.
  - exists f1, f2. split; [exact H1|]. split; [exact H2|exact Hclosed].
Defined.

(** X9: What the federated store reads after [deleteCluster]: nothing for the
    deleted cluster, and for every other cluster what it read before. *)
Theorem store_reads_after_deleteCluster (cluster : FederatedCluster)
    (f f' : federatedInformerImpl) :
  deleteCluster cluster f = Ok f' ->
  ListFromCluster f' (Name cluster) = ([], None)
  ∧ (forall key, StoreGetByKey f' (Name cluster) key = (None, false, None))
  ∧ (forall other, other ≠ Name cluster ->
       ListFromCluster f' other = ListFromCluster f other
       ∧ forall key, StoreGetByKey f' other key = StoreGetByKey f other key).
Proof.
  intros (Hmap & _)%deleteCluster_Ok_fields.
  unfold ListFromCluster, StoreGetByKey. rewrite Hmap. split; [|split].
  - by rewrite lookup_delete_eq.
  - intros key. by rewrite lookup_delete_eq.
  - intros other Hne. rewrite lookup_delete_ne by done. done.
Qed.

Lemma store_reads_after_deleteCluster_witness :
  exists f',
    deleteCluster c1Ready viewInformer = Ok f'
    ∧ ListFromCluster f' "c1" = ([], None)
    ∧ ListFromCluster f' "c2" = ListFromCluster viewInformer "c2".
Proof.
  eexists. split; [vm_compute; reflexivity|].
  destruct (store_reads_after_deleteCluster c1Ready viewInformer _ eq_refl)
    as (Hgone & _ & Hother).
  split; [exact Hgone|]. apply (Hother "c2"). discriminate.
Defined.

(** X10: What the federated store reads after [addCluster]: when a client could
    be built, the cluster's view is the store that the target informer
    factory returned; when it could not, every view is as before; other
    clusters' views never change. *)
Theorem store_reads_after_addCluster (cluster : FederatedCluster)
    (f : federatedInformerImpl) :
  (forall client,
     getClientForClusterUnlocked f (Name cluster) = (client, None) ->
     ListFromCluster (addCluster cluster f) (Name cluster)
     = (List (targetInformerFactory f cluster client).1, None)
     ∧ forall key,
         StoreGetByKey (addCluster cluster f) (Name cluster) key
         = GetByKey (targetInformerFactory f cluster client).1 key)
  ∧ (forall client err,
       getClientForClusterUnlocked f (Name cluster) = (client, Some err) ->
       targetInformers (addCluster cluster f) = targetInformers f)
  ∧ (forall other, other ≠ Name cluster ->
       ListFromCluster (addCluster cluster f) other = ListFromCluster f other
       ∧ forall key,
           StoreGetByKey (addCluster cluster f) other key = StoreGetByKey f other key).
Proof.
  split; [|split].
  - intros client Hclient. rewrite (addCluster_success _ _ _ Hclient).
    unfold ListFromCluster, StoreGetByKey. simpl. rewrite lookup_insert_eq. done.
  - intros client err Hclient. by rewrite (addCluster_failure _ _ _ _ Hclient).
  - intros other Hne.
    destruct (getClientForClusterUnlocked f (Name cluster)) as [client [err|]] eqn:Hclient.
    + by rewrite (addCluster_failure _ _ _ _ Hclient).
    + rewrite (addCluster_success _ _ _ Hclient).
      unfold ListFromCluster, StoreGetByKey. simpl.
      rewrite lookup_insert_ne by done. done.
Qed.



Example Stop_before_Start_example :
  Stop (newInformer goodFactory) = Panic "close of nil channel".
Proof. reflexivity. Qed.


Lemma started_withRegistry m f : started f -> started (withRegistry m f).
Proof. done. Qed.






(** X7: The delete handler: under the channel discipline it tears the entry of
    the deleted cluster down (closing its stop channel if there is one) and
    then, if the unavailable callback is registered, calls it with what the
    entry's store listed before the teardown; nothing else changes. *)
Theorem DeleteFunc_teardown (clusterLifecycle : ClusterLifecycleHandlerFuncs)
    (old : FederatedCluster) (f : federatedInformerImpl) :
  wf f ->
  exists f',
    DeleteFunc clusterLifecycle (ObjCluster old) f = Ok f'
    ∧ targetInformers f' = delete (Name old) (targetInformers f)
    ∧ newSteps f f'
      = teardownSteps f (Name old)
          ++ unavailableCall clusterLifecycle old (snapshot f (Name old))
    ∧ (forall inf c, targetInformers f !! Name old = Some inf ->
         stopChan inf = Some c -> c ∈ closed f')
    ∧ (targetInformers f !! Name old = None -> closed f' = closed f).
Proof.
  intros Hwf. unfold teardownSteps, unavailableCall.
  destruct (targetInformers f !! Name old) as [inf|] eqn:Hinf.
  - pose proof (wf_open _ _ _ Hwf Hinf) as Ho.
    destruct (stopChan inf) as [c|] eqn:Hc; [|done]. destruct Ho as [Hnc Hlt].
    rewrite (DeleteFunc_cluster _ _ _ _ (deleteCluster_found _ _ inf c Hinf Hc Hnc)).
    rewrite getClusterData_snapshot.
    eexists. split; [reflexivity|].
    destruct (ClusterUnavailable clusterLifecycle); simpl;
      (split; [done|]);
      (split; [apply newSteps_app; simpl; rewrite <- ?app_assoc; reflexivity|]);
      (split; [|done]); intros inf' c' [= <-] Hc'; rewrite Hc in Hc';
      injection Hc' as <-; apply elem_of_union_r; by apply elem_of_singleton.
  - rewrite (DeleteFunc_cluster _ _ _ _ (deleteCluster_missing _ _ Hinf)).
    rewrite getClusterData_snapshot.
    eexists. split; [reflexivity|].
    destruct (ClusterUnavailable clusterLifecycle); simpl;
      (split; [by rewrite delete_id|]);
      (split; [apply newSteps_app; simpl; rewrite <- ?app_assoc; reflexivity|]);
      (split; [done|done]).
Qed.

Lemma DeleteFunc_teardown_witness :
  exists f',
    DeleteFunc bothCallbacks (ObjCluster c1Ready) viewInformer = Ok f'
    ∧ newSteps viewInformer f'
      = teardownSteps viewInformer "c1"
          ++ unavailableCall bothCallbacks c1Ready (snapshot viewInformer "c1").
Proof.
  destruct (DeleteFunc_teardown bothCallbacks c1Ready viewInformer)
    as (f' & Hdel & _ & Hsteps & _).
  - apply (bool_decide_unpack (wf viewInformer)). vm_compute. exact I.
  - exists f'. split; [exact Hdel|exact Hsteps].
Defined.

(** X8: The add handler: an unready cluster changes nothing; for a ready cluster
    [addCluster] runs and then the available callback, if registered, is
    called, whether or not a client could be built; an entry is created
    exactly when it could. *)
Theorem AddFunc_cases (clusterLifecycle : ClusterLifecycleHandlerFuncs)
    (cur : FederatedCluster) (f : federatedInformerImpl) :
  (IsClusterReady cur = false ->
   AddFunc clusterLifecycle (ObjCluster cur) f = Ok f)
  ∧ (IsClusterReady cur = true ->
     exists f',
       AddFunc clusterLifecycle (ObjCluster cur) f = Ok f'
       ∧ newSteps f f' = addSteps f cur ++ availableCall clusterLifecycle cur
       ∧ closed f' = closed f
       ∧ (forall client,
            getClientForClusterUnlocked f (Name cur) = (client, None) ->
            targetInformers f'
            = <[Name cur := freshInformer f cur client]> (targetInformers f))
       ∧ (forall client err,
            getClientForClusterUnlocked f (Name cur) = (client, Some err) ->
            targetInformers f' = targetInformers f)).
Proof.
  unfold AddFunc. split; [by intros ->|]. intros ->.
  unfold addSteps, availableCall.
  destruct (getClientForClusterUnlocked f (Name cur)) as [client [err|]] eqn:Hclient.
  - rewrite (addCluster_failure _ _ _ _ Hclient).
    destruct (ClusterAvailable clusterLifecycle); eexists;
      (split; [reflexivity|]);
      (split; [apply newSteps_app; simpl; rewrite <- ?app_assoc; reflexivity|]);
      (split; [done|]); (split; [by intros client' [=]|done]).
  - rewrite (addCluster_success _ _ _ Hclient).
    destruct (ClusterAvailable clusterLifecycle); eexists;
      (split; [reflexivity|]);
      (split; [apply newSteps_app; simpl; rewrite <- ?app_assoc; reflexivity|]);
      (split; [done|]); (split; [by intros client' [= <-]|by intros client' err' [=]]).
Qed.

Example AddFunc_wrong_type_example :
  AddFunc bothCallbacks (ObjOther "tombstone") (newInformer goodFactory)
  = Panic "invalid memory address or nil pointer dereference".
Proof. reflexivity. Qed.

(** ** Entries exist only for clusters reported ready *)







(** ** The federated view *)

Lemma appendObjects_spec clusterName values : forall result,
  appendObjects clusterName values result
  = result ++ ((fun v => {| Object := Some v; ClusterName := clusterName |}) <$> values).
Proof.
  induction values as [|v values IH]; intros result; simpl.
  - by rewrite app_nil_r.
  - rewrite IH, <- app_assoc. done.
Qed.

Lemma listEntries_spec entries : forall result,
  listEntries entries result
  = result ++ (entries ≫= fun e =>
                 (fun v => {| Object := Some v; ClusterName := e.1 |})
                   <$> List (store e.2)).
Proof.
  induction entries as [|e entries IH]; intros result.
  - simpl. by rewrite app_nil_r.
  - rewrite bind_cons. cbn [listEntries].
    rewrite IH, appendObjects_spec, <- app_assoc. done.
Qed.

Lemma entries_of_map (f : federatedInformerImpl) (entries : list (string * informer)) :
  entries ≡ₚ map_to_list (targetInformers f) ->
  NoDup entries.*1
  ∧ (forall name inf, (name, inf) ∈ entries <-> targetInformers f !! name = Some inf)
  ∧ list_to_map entries = targetInformers f.
Proof.
  intros Hperm. split; [|split].
  - rewrite Hperm. apply NoDup_fst_map_to_list.
  - intros name inf. rewrite Hperm. apply elem_of_map_to_list.
  - rewrite <- (list_to_map_to_list (targetInformers f)).
    apply list_to_map_proper; [|done]. rewrite Hperm. apply NoDup_fst_map_to_list.
Qed.

Lemma tagged_same (name : string) (vs : list obj) :
  omap Object
    (filter (fun fo => ClusterName fo = name)
       ((fun v => {| Object := Some v; ClusterName := name |}) <$> vs))
  = vs.
Proof.
  induction vs as [|v vs IH]; [done|].
  rewrite fmap_cons, filter_cons. rewrite decide_True by done.
  csimpl. by rewrite IH.
Qed.

Lemma tagged_other (n name : string) (vs : list obj) :
  n ≠ name ->
  filter (fun fo => ClusterName fo = name)
    ((fun v => {| Object := Some v; ClusterName := n |}) <$> vs)
  = [].
Proof.
  intros Hne. induction vs as [|v vs IH]; [done|].
  rewrite fmap_cons, filter_cons. by rewrite decide_False.
Qed.

Lemma objects_of_cluster (entries : list (string * informer)) (name : string) :
  NoDup entries.*1 ->
  omap Object
    (filter (fun fo => ClusterName fo = name)
       (entries ≫= fun e =>
          (fun v => {| Object := Some v; ClusterName := e.1 |}) <$> List (store e.2)))
  = match (list_to_map entries : gmap string informer) !! name with
    | Some inf => List (store inf)
    | None => []
    end.
Proof.
  induction entries as [|[n i] entries IH]; [done|].
  rewrite fmap_cons, NoDup_cons. intros [Hn Hnd].
  rewrite bind_cons, filter_app, omap_app, IH by done.
  change (list_to_map ((n, i) :: entries) : gmap string informer)
    with (<[n := i]> (list_to_map entries : gmap string informer)).
  cbn [fst snd].
  destruct (decide (n = name)) as [->|Hne].
  - rewrite lookup_insert_eq, tagged_same.
    rewrite (not_elem_of_list_to_map_1 entries name) by done.
    by rewrite app_nil_r.
  - rewrite lookup_insert_ne by done. by rewrite tagged_other.
Qed.

(** X11: [List] of the federated store never fails, and, in whatever order the
    map is ranged over, it returns exactly the objects of the target stores,
    each tagged with the name of the cluster whose store holds it: the
    objects tagged with a cluster name are, in order, what
    [ListFromCluster] returns for that name. *)
Theorem StoreList_by_cluster (f : federatedInformerImpl)
    (entries : list (string * informer)) :
  entries ≡ₚ map_to_list (targetInformers f) ->
  (StoreListIn entries).2 = None
  ∧ (forall fo, fo ∈ (StoreListIn entries).1
       <-> exists inf value,
             targetInformers f !! ClusterName fo = Some inf
             ∧ Object fo = Some value ∧ value ∈ List (store inf))
  ∧ (forall name,
       omap Object (filter (fun fo => ClusterName fo = name) (StoreListIn entries).1)
       = (ListFromCluster f name).1)
  ∧ (StoreListIn entries).1 ≡ₚ (StoreList f).1.
Proof.
  intros Hperm. destruct (entries_of_map f entries Hperm) as (Hnd & Hmem & Hmap).
  unfold StoreList, StoreListIn. simpl. rewrite !listEntries_spec. simpl.
  split; [done|]. split; [|split].
  - intros [o n]. rewrite list_elem_of_bind. split.
    + intros ([n' i] & Hin & He). apply list_elem_of_fmap in Hin as (v & [= -> ->] & Hv).
      exists i, v. simpl. split; [by apply Hmem|done].
    + simpl. intros (i & v & Hi & -> & Hv). exists (n, i). split; [|by apply Hmem].
      apply list_elem_of_fmap. by exists v.
  - intros name. rewrite objects_of_cluster by done. rewrite Hmap.
    unfold ListFromCluster. by destruct (targetInformers f !! name).
  - by rewrite Hperm.
Qed.

Lemma StoreList_by_cluster_witness :
  omap Object (filter (fun fo => ClusterName fo = "c2") (StoreList viewInformer).1)
  = (ListFromCluster viewInformer "c2").1.
Proof.
  exact (proj1 (proj2 (proj2 (StoreList_by_cluster viewInformer
           (map_to_list (targetInformers viewInformer)) (reflexivity _)))) "c2").
Defined.

Lemma getFromEntries_ok key entries : forall result,
  Forall (fun e => (GetByKey (store e.2) key).2 = None) entries ->
  getFromEntries key entries result = (Some (result ++ omap (foundIn key) entries), None).
Proof.
  induction entries as [|e entries IH]; intros result Hok.
  - simpl. by rewrite app_nil_r.
  - apply Forall_cons in Hok as [He Hok]. cbn [getFromEntries]. csimpl.
    unfold foundIn at 1.
    destruct (GetByKey (store e.2) key) as [[value exist] err]. simpl in He. subst err.
    destruct exist.
    + rewrite IH by done. by rewrite <- app_assoc.
    + by rewrite IH.
Qed.

Lemma getFromEntries_error key entries : forall result,
  Exists (fun e => (GetByKey (store e.2) key).2 ≠ None) entries ->
  exists e err,
    e ∈ entries ∧ (GetByKey (store e.2) key).2 = Some err
    ∧ getFromEntries key entries result = (None, Some err).
Proof.
  induction entries as [|e entries IH]; intros result Hbad.
  - by apply Exists_nil in Hbad.
  - cbn [getFromEntries].
    destruct (GetByKey (store e.2) key) as [[value exist] [err|]] eqn:Hget.
    + exists e, err. rewrite Hget. split; [left|]. by destruct exist.
    + apply Exists_cons in Hbad as [Hbad|Hbad]; [by rewrite Hget in Hbad|].
      destruct exist.
      * destruct (IH (result ++ [{| Object := value; ClusterName := e.1 |}]) Hbad)
          as (e' & err & Hin & Herr & Hrun).
        exists e', err. split; [by right|done].
      * destruct (IH result Hbad) as (e' & err & Hin & Herr & Hrun).
        exists e', err. split; [by right|done].
Qed.

(** X12: [GetFromAllClusters] agrees with [GetByKey]: when no target store fails
    on the key, it returns, in whatever order the map is ranged over, exactly
    the (cluster, object) pairs for which [GetByKey] of the federated store
    finds the object; when some target store fails on the key it returns no
    list and the error of one of the failing stores. *)
Theorem StoreGetFromAllClusters_agrees (f : federatedInformerImpl)
    (entries : list (string * informer)) (key : string) :
  entries ≡ₚ map_to_list (targetInformers f) ->
  ((forall name inf, targetInformers f !! name = Some inf ->
      (GetByKey (store inf) key).2 = None) ->
   exists found,
     StoreGetFromAllClustersIn entries key = (Some found, None)
     ∧ forall fo, fo ∈ found
         <-> StoreGetByKey f (ClusterName fo) key = (Object fo, true, None))
  ∧ ((exists name inf, targetInformers f !! name = Some inf
        ∧ (GetByKey (store inf) key).2 ≠ None) ->
     exists name inf err,
       targetInformers f !! name = Some inf
       ∧ (GetByKey (store inf) key).2 = Some err
       ∧ StoreGetFromAllClustersIn entries key = (None, Some err)).
Proof.
  intros Hperm. destruct (entries_of_map f entries Hperm) as (Hnd & Hmem & Hmap).
  unfold StoreGetFromAllClustersIn. split.
  - intros Hok. eexists. split.
    + apply getFromEntries_ok. apply Forall_forall. intros [n i] Hin%Hmem.
      by apply (Hok n i).
    + intros [o n]. simpl. rewrite list_elem_of_omap. unfold StoreGetByKey, foundIn.
      simpl. split.
      * intros ([n' i] & Hin%Hmem & Hfound). simpl in Hfound.
        destruct (GetByKey (store i) key) as [[value exist] [err|]] eqn:Hget;
          [by destruct exist|].
        destruct exist; [|done]. injection Hfound as -> ->. by rewrite Hin, Hget.
      * destruct (targetInformers f !! n) as [i|] eqn:Hi; [|done].
        intros Hget. exists (n, i). split; [by apply Hmem|]. simpl. by rewrite Hget.
  - intros (name & inf & Hinf & Hbad).
    destruct (getFromEntries_error key entries []) as ([n i] & err & Hin & Herr & Hrun).
    { apply Exists_exists. exists (name, inf). split; [by apply Hmem|done]. }
    exists n, i, err. split; [by apply Hmem|done].
Qed.

Lemma StoreGetFromAllClusters_agrees_witness :
  (exists found,
     StoreGetFromAllClusters viewInformer "default/web" = (Some found, None)
     ∧ forall fo, fo ∈ found
         <-> StoreGetByKey viewInformer (ClusterName fo) "default/web"
             = (Object fo, true, None))
  ∧ exists name inf err,
      targetInformers brokenViewInformer !! name = Some inf
      ∧ (GetByKey (store inf) "default/web").2 = Some err
      ∧ StoreGetFromAllClusters brokenViewInformer "default/web" = (None, Some err).
Proof.
  split.
  - apply (proj1 (StoreGetFromAllClusters_agrees viewInformer
                    (map_to_list (targetInformers viewInformer)) "default/web"
                    (reflexivity _))).
    intros name inf Hinf.
    apply (map_Forall_lookup_1
             (fun _ inf => (GetByKey (store inf) "default/web").2 = None)
             (targetInformers viewInformer) name inf); [|exact Hinf].
    apply (bool_decide_unpack _). vm_compute. exact I.
  - apply (proj2 (StoreGetFromAllClusters_agrees brokenViewInformer
                    (map_to_list (targetInformers brokenViewInformer)) "default/web"
                    (reflexivity _))).
    exists "c3", {| controller := 3; store := failingStore; stopChan := Some 3 |}.
    split; [vm_compute; reflexivity|discriminate].
Defined.

(** ** [ClustersSynced] and lists without repeated names *)

(** X13: For a list that names no cluster twice, [ClustersSynced] is true exactly
    when the clusters with a target informer are the listed ones, and only
    these, and every target informer has synced. *)
Theorem ClustersSynced_only_these (HasSynced : Controller -> bool)
    (f : federatedInformerImpl) (clusters : list FederatedCluster) :
  NoDup (Name <$> clusters) ->
  ClustersSynced HasSynced f clusters = true
  <-> dom (targetInformers f) = list_to_set (Name <$> clusters)
      ∧ map_Forall (fun _ inf => HasSynced (controller inf) = true) (targetInformers f).
Proof.
  intros Hnd.
  assert (Hsize : size (list_to_set (Name <$> clusters) : gset string) = length clusters).
  { rewrite size_list_to_set by done. by rewrite length_fmap. }
  unfold ClustersSynced. case_bool_decide as Hlen.
  { simpl. split; [done|]. intros [Hdom _]. destruct Hlen.
    by rewrite <- size_dom, Hdom. }
  destruct (decide (Forall (fun c => is_Some (targetInformers f !! Name c)) clusters))
    as [Hall|Hnot].
  - rewrite informersFor_found by done. simpl. rewrite allSynced_Forall.
    assert (Hdom : dom (targetInformers f) = list_to_set (Name <$> clusters)).
    { symmetry. apply set_subseteq_size_eq.
      - intros n Hn. apply elem_of_list_to_set, list_elem_of_fmap in Hn as (c & -> & Hc).
        apply elem_of_dom. rewrite Forall_forall in Hall. by apply Hall.
      - rewrite size_dom, Hsize. lia. }
    split.
    + intros Hsync. split; [done|]. intros n inf Hinf.
      assert (Hn : n ∈ dom (targetInformers f)) by (apply elem_of_dom; by eexists).
      rewrite Hdom in Hn.
      apply elem_of_list_to_set, list_elem_of_fmap in Hn as (c & -> & Hc).
      rewrite Forall_forall in Hsync. apply Hsync.
      apply list_elem_of_omap. by exists c.
    + intros [_ Hsync]. apply Forall_forall. intros inf Hin.
      apply list_elem_of_omap in Hin as (c & Hc & Hinf). by apply (Hsync (Name c)).
  - rewrite informersFor_missing by done. simpl. split; [done|].
    intros [Hdom _]. destruct Hnot. apply Forall_forall. intros c Hc.
    apply elem_of_dom. rewrite Hdom. apply elem_of_list_to_set, list_elem_of_fmap.
    by exists c.
Qed.

Lemma ClustersSynced_only_these_witness :
  ClustersSynced (fun _ => true) viewInformer [c1Ready; c2Ready] = true.
Proof.
  apply (ClustersSynced_only_these (fun _ => true) viewInformer [c1Ready; c2Ready]).
  - apply (bool_decide_unpack _). vm_compute. exact I.
  - split.
    + apply (bool_decide_unpack _). vm_compute. exact I.
    + apply (bool_decide_unpack _). vm_compute. exact I.
Defined.

(** ** [GetReadyCluster] and [GetReadyClusters] *)

Lemma asClusters_elem items cs c :
  asClusters items = Some cs -> ObjCluster c ∈ items -> c ∈ cs.
Proof.
  revert cs. induction items as [|[c'|tag] items IH]; intros cs; simpl.
  - by intros _ ?%elem_of_nil.
  - destruct (asClusters items) as [cs'|]; [|done]. intros [= <-].
    intros [[= ->]|Hin]%elem_of_cons; [left|right]. by apply IH.
  - done.
Qed.

(** X14: On the registry cache as the cache controller keeps it, a cluster that
    [GetReadyCluster] finds is among the clusters that [GetReadyClusters]
    returns. *)
Theorem GetReadyCluster_in_GetReadyClusters (m : gmap string obj)
    (f : federatedInformerImpl) (name : string) (cluster : FederatedCluster)
    (ready : list FederatedCluster) :
  GetReadyCluster (withRegistry m f) name = (Some cluster, true, None) ->
  GetReadyClusters (withRegistry m f) = (Some ready, None) ->
  cluster ∈ ready.
Proof.
  unfold GetReadyCluster. intros [Hget Hready]%getReadyClusterUnlocked_found.
  unfold GetReadyClusters. simpl in *.
  destruct (m !! (fedNamespace f +:+ "/" +:+ name)) as [o|] eqn:Hm; [|done].
  injection Hget as ->.
  assert (Hin : ObjCluster cluster ∈ (map_to_list m).*2).
  { apply list_elem_of_fmap. exists (fedNamespace f +:+ "/" +:+ name, ObjCluster cluster).
    split; [done|]. by apply elem_of_map_to_list. }
  destruct (asClusters (map_to_list m).*2) as [cs|] eqn:Hcs.
  - rewrite (collectClusters_filter _ _ cs) by done. simpl. intros [= <-].
    apply list_elem_of_filter. split; [done|]. by apply (asClusters_elem _ cs _ Hcs).
  - by rewrite collectClusters_wrong.
Qed.

Lemma GetReadyCluster_in_GetReadyClusters_witness :
  exists ready,
    GetReadyClusters (withRegistry sampleRegistry (newInformer goodFactory))
    = (Some ready, None)
    ∧ c2Ready ∈ ready.
Proof.
  eexists. split; [vm_compute; reflexivity|].
  apply (GetReadyCluster_in_GetReadyClusters sampleRegistry (newInformer goodFactory)
           "c2" c2Ready).
  - vm_compute. reflexivity.
  - vm_compute. reflexivity.
Defined.

(** ** What the closures of the unmanaged dispatcher report *)




Example deleteOperation_not_found_example :
  exists w',
    deleteOperation "c1" notFoundClient sampleWorld = Ok (StatusAllOK, w')
    ∧ failures (log w') = 0.
Proof. eexists. split; reflexivity. Qed.

Example deleteOperation_forbidden_example :
  exists w',
    deleteOperation "c2" forbiddenClient sampleWorld = Ok (StatusError, w')
    ∧ failures (log w') = 1.
Proof. eexists. split; reflexivity. Qed.



(** ** [Wait] and the goroutine of [Delete] *)

(** X18: If [Wait] would return before a call to [Delete], then between the call
    and the completion of the goroutine it launched [Wait] stays blocked;
    the goroutine never panics, and once it has run [Wait] returns again. *)
Theorem Wait_blocks_until_Delete_completes (key : string)
    (outcomeError : string -> string -> ReconciliationStatus -> option error)
    (clusterName : string) (w : world) (r : bool * option error) :
  Wait w = Some r ->
  Wait (unmanagedDelete clusterName w) = None
  ∧ exists w',
      runGoroutine key outcomeError (length (pending w)) (unmanagedDelete clusterName w)
      = Ok w'
      ∧ is_Some (Wait w')
      ∧ pending w' = pending w
      ∧ heap w' = heap w.
Proof.
  unfold Wait, dispatcherWait. case_bool_decide as Heq; [|done]. intros _.
  split.
  { simpl. rewrite bool_decide_eq_false_2; [done|]. lia. }
  unfold unmanagedDelete. cbv zeta.
  change (length (pending w)) with
    (length (pending (setDispatcher
                        (incrementOperationsInitiated (dispatcher (self w))) w))).
  rewrite runGoroutine_spawned. unfold runTask, clusterOperation. simpl.
  destruct (clientAccessor (dispatcher (self w)) clusterName) as [client|err].
  - destruct (deleteOperation_status clusterName client
                (setDispatcher (incrementOperationsInitiated (dispatcher (self w))) w))
      as (w1 & Hop & Hself & Hheap & Hpending).
    simpl in Hop. rewrite Hop. simpl. eexists. split; [reflexivity|]. simpl.
    rewrite Hself, Hheap, Hpending. simpl.
    rewrite bool_decide_eq_true_2 by (by rewrite Heq).
    split; [|done]. destruct (allOK _ && _); by eexists.
  - eexists. split; [reflexivity|]. simpl.
    rewrite bool_decide_eq_true_2 by (by rewrite Heq).
    split; [|done]. destruct (allOK _ && _); by eexists.
Qed.

Lemma Wait_blocks_until_Delete_completes_witness :
  Wait (unmanagedDelete "c1" sampleWorld) = None.
Proof.
  exact (proj1 (Wait_blocks_until_Delete_completes managedKey noOutcomeError "c1"
                  sampleWorld (true, None) eq_refl)).
Defined.
